(** * Kramers-Moyal kernel estimator ([kramersmoyal/kmc.py])

    A shallow embedding of [kmc_kernel_estimator] and of the numpy / scipy
    array operations it is written with, followed by the properties of the
    estimator that the specification states.

    Arrays are numpy's C-contiguous arrays: a shape and the flat row-major
    data.  Scalars are kept behind an interface ([Scalar]) so that the
    structural results hold for any arithmetic; the concrete runs use
    binary64 floats ([PrimFloat]), the dtype numpy computes with. *)

From Stdlib Require Import List ZArith Lia Bool Arith PeanoNat.
From Stdlib Require Import Floats.
Import ListNotations.

Set Implicit Arguments.

(** ** Scalars *)

Class Scalar (R : Type) := {
  zero : R;
  one : R;
  add : R -> R -> R;
  sub : R -> R -> R;
  mul : R -> R -> R;
  div : R -> R -> R;
  (** [np.power] with an integer exponent *)
  pow : R -> Z -> R;
  leb : R -> R -> bool;
  of_nat : nat -> R
}.

(** The two facts about scalars that the zero-power channel needs; both hold
    for IEEE floats ([pow(x, 0) = 1] for every [x], NaN included). *)
Class ScalarLaws (R : Type) `{Scalar R} := {
  pow_0 : forall x : R, pow x 0%Z = one;
  mul_1_1 : mul one one = one
}.
Arguments ScalarLaws R {_}.

Module F64.

(** Integer powers by repeated multiplication, a negative exponent giving
    the reciprocal of the positive power.  It stands for the C library's
    [pow], which numpy calls; the general results do not depend on it. *)
Definition fpow (x : float) (n : Z) : float :=
  match n with
  | Z0 => 1%float
  | Zpos p => Pos.iter (PrimFloat.mul x) 1%float p
  | Zneg p => PrimFloat.div 1%float (Pos.iter (PrimFloat.mul x) 1%float p)
  end.

Definition fof_nat (n : nat) : float :=
  PrimFloat.of_uint63 (Uint63.of_Z (Z.of_nat n)).

#[export] Instance float_scalar : Scalar float := {
  zero := 0%float;
  one := 1%float;
  add := PrimFloat.add;
  sub := PrimFloat.sub;
  mul := PrimFloat.mul;
  div := PrimFloat.div;
  pow := fpow;
  leb := PrimFloat.leb;
  of_nat := fof_nat
}.

#[export] Instance float_laws : ScalarLaws float.
Proof. split; reflexivity. Qed.

Definition is_nan (x : float) : bool := PrimFloat.is_nan x.

End F64.
Export F64.

(** ** Python exceptions and the error monad *)

(** [ValueError] is what numpy and scipy raise (broadcasting, reshape, stack,
    dimensionality), [IndexError] what a missing axis of [shape] raises and
    [TypeError] what an object of the wrong kind raises; the other four are
    the error classes of the specification's taxonomy. *)
Inductive exn : Type :=
| ValueError
| IndexError
| TypeError
| ShapeMismatchError
| InsufficientDataError
| DegenerateKernelError
| InvalidPowerError.

Inductive res (A : Type) : Type :=
| Ok (a : A)
| Raise (e : exn).
Arguments Ok {A} a.
Arguments Raise {A} e.

Definition bind {A B : Type} (m : res A) (k : A -> res B) : res B :=
  match m with
  | Ok a => k a
  | Raise e => Raise e
  end.

Notation "x <- m ;; k" := (bind m (fun x => k))
  (at level 61, m at next level, right associativity).
Notation "' p <- m ;; k" := (bind m (fun x => let p := x in k))
  (at level 61, p pattern, m at next level, right associativity).

Definition raises {A : Type} (m : res A) : bool :=
  match m with Ok _ => false | Raise _ => true end.

Definition guard (b : bool) (e : exn) : res unit :=
  if b then Ok tt else Raise e.

(** Every exception a computation can raise satisfies [P]. *)
Definition only {A : Type} (P : exn -> Prop) (m : res A) : Prop :=
  forall e, m = Raise e -> P e.

Definition is_value_error (e : exn) : Prop := e = ValueError.

(** What the estimator can raise: the errors of numpy, scipy and Python's
    indexing, and the dimensionality error of the histogram builder. *)
Definition library_error (e : exn) : Prop :=
  e = ValueError \/ e = IndexError \/ e = ShapeMismatchError.

(** ** Arrays *)

Record ndarray (A : Type) : Type := mk_nd {
  shape : list nat;
  data : list A
}.

(** [np.prod(shape)]: the number of entries of an array of that shape *)
Definition size (s : list nat) : nat := fold_right Nat.mul 1 s.

Definition wf {A : Type} (a : ndarray A) : Prop :=
  length (data a) = size (shape a).

(** Row-major flat index of a multi-index ([np.ravel_multi_index]) *)
Fixpoint ravel (s idx : list nat) : nat :=
  match s, idx with
  | _ :: s', i :: idx' => i * size s' + ravel s' idx'
  | _, _ => 0
  end.

(** Multi-index of a flat index ([np.unravel_index]) *)
Fixpoint unravel (s : list nat) (p : nat) : list nat :=
  match s with
  | [] => []
  | _ :: s' => p / size s' :: unravel s' (p mod size s')
  end.

(** An index lies inside a shape when it does so on every axis. *)
Definition in_shape (idx s : list nat) : Prop := Forall2 lt idx s.

(** The list [f 0; ...; f (n-1)] *)
Definition build {A : Type} (n : nat) (f : nat -> A) : list A :=
  map f (seq 0 n).

(** [l[i] for i, _ in enumerate(l)] *)
Definition enumerate {A : Type} (l : list A) : list (nat * A) :=
  combine (seq 0 (length l)) l.

(** A default entry for reads; every read of the program is in range. *)
Class Default (A : Type) := dflt : A.
#[export] Instance default_scalar {R : Type} `{Scalar R} : Default R := @zero R _.
#[export] Instance default_Z : Default Z := 0%Z.

Section Arrays.

Context {A : Type} `{Default A}.

Definition get (l : list A) (i : nat) : A := nth i l dflt.

Definition nrows (a : ndarray A) : nat := nth 0 (shape a) 0.
Definition ncols (a : ndarray A) : nat := nth 1 (shape a) 0.

(** [a[idx]] *)
Definition at_index (a : ndarray A) (idx : list nat) : A :=
  get (data a) (ravel (shape a) idx).

(** [a[i, j]] of a 2-D array *)
Definition get2 (a : ndarray A) (i j : nat) : A :=
  get (data a) (i * ncols a + j).

(** [a.reshape(s)] *)
Definition reshape (a : ndarray A) (s : list nat) : res (ndarray A) :=
  if length (data a) =? size s then Ok (mk_nd s (data a)) else Raise ValueError.

(** [a.reshape(-1, la)]: the row count is inferred; numpy refuses when it
    cannot be ([la = 0], or a size that [la] does not divide). *)
Definition reshape_rows (a : ndarray A) (la : nat) : res (ndarray A) :=
  if (la =? 0) || negb (length (data a) mod la =? 0) then Raise ValueError
  else Ok (mk_nd [length (data a) / la; la] (data a)).

(** [a[..., None]]: a trailing axis of length 1 over the same data *)
Definition expand_last (a : ndarray A) : ndarray A :=
  mk_nd (shape a ++ [1]) (data a).

(** [a[1:, ...]] of a 2-D array: the rows from the second on *)
Definition tail_rows (a : ndarray A) : ndarray A :=
  mk_nd [nrows a - 1; ncols a] (skipn (ncols a) (data a)).

(** [a[i, :]] of a 2-D array *)
Definition row (a : ndarray A) (i : nat) : list A :=
  build (ncols a) (fun j => get2 a i j).

(** The rows of a 2-D array, first to last *)
Definition rows (a : ndarray A) : list (list A) :=
  build (nrows a) (row a).

(** [a[..., k]]: the entries whose last index is [k] *)
Definition channel (a : ndarray A) (k : nat) : ndarray A :=
  let K := last (shape a) 0 in
  mk_nd (removelast (shape a))
        (build (size (removelast (shape a))) (fun q => get (data a) (q * K + k))).

(** *** Broadcasting *)

(** A shape padded with leading axes of length 1 to [k] axes *)
Definition pad_shape (k : nat) (s : list nat) : list nat :=
  repeat 1 (k - length s) ++ s.

(** The index read in an array of shape [s] for the index [idx] of the
    broadcast result: 0 along the axes of length 1. *)
Fixpoint clip (s idx : list nat) : list nat :=
  match s, idx with
  | n :: s', i :: idx' => (if n =? 1 then 0 else i) :: clip s' idx'
  | _, _ => []
  end.

(** The entry of [a], seen with [k] axes, at index [idx] of a broadcast *)
Definition bget (a : ndarray A) (k : nat) (idx : list nat) : A :=
  let s := pad_shape k (shape a) in
  get (data a) (ravel s (clip s idx)).

End Arrays.

(** The common shape of two shapes of equal length, axis by axis *)
Fixpoint bshape (s1 s2 : list nat) : option (list nat) :=
  match s1, s2 with
  | [], [] => Some []
  | n :: s1', m :: s2' =>
      match bshape s1' s2' with
      | None => None
      | Some s =>
          if n =? m then Some (n :: s)
          else if n =? 1 then Some (m :: s)
          else if m =? 1 then Some (n :: s)
          else None
      end
  | _, _ => None
  end.

(** Whether an array of shape [s] broadcasts to the shape [t] *)
Fixpoint bcast_to (s t : list nat) : bool :=
  match s, t with
  | [], [] => true
  | n :: s', m :: t' => ((n =? m) || (n =? 1)) && bcast_to s' t'
  | _, _ => false
  end.

(** A binary ufunc on two arrays, with numpy's broadcasting *)
Definition broadcast2 {A B C : Type} `{Default A} `{Default B}
    (f : A -> B -> C) (a : ndarray A) (b : ndarray B) : res (ndarray C) :=
  let k := Nat.max (length (shape a)) (length (shape b)) in
  match bshape (pad_shape k (shape a)) (pad_shape k (shape b)) with
  | None => Raise ValueError
  | Some s =>
      Ok (mk_nd s (build (size s)
                     (fun p => f (bget a k (unravel s p)) (bget b k (unravel s p)))))
  end.

(** The shape [(1,)*i + (n,) + (1,)*(k-i-1)] that [np.ix_] gives array [i]
    of [k] *)
Definition ix_shape (k i n : nat) : list nat :=
  repeat 1 i ++ n :: repeat 1 (k - i - 1).

(** The Cartesian product in the words of the specification: one tuple per
    combination, in row-major order (the last sequence varies fastest). *)
Fixpoint cart {A : Type} (arrays : list (list A)) : list (list A) :=
  match arrays with
  | [] => [[]]
  | a :: rest => flat_map (fun x => map (cons x) (cart rest)) a
  end.

(** [mapM] of the error monad: the first exception stops the loop *)
Fixpoint for_each {A B : Type} (f : A -> res B) (l : list A) : res (list B) :=
  match l with
  | [] => Ok []
  | x :: l' => y <- f x ;; ys <- for_each f l' ;; Ok (y :: ys)
  end.

Fixpoint shape_eqb (s t : list nat) : bool :=
  match s, t with
  | [], [] => true
  | n :: s', m :: t' => (n =? m) && shape_eqb s' t'
  | _, _ => false
  end.

(** ** The numerical operations of the estimator *)

Section Numeric.

Context {R : Type} `{Scalar R}.

(** [np.sum], as a sum from the left (numpy adds pairwise, which differs in
    rounding only) *)
Definition sum (l : list R) : R := fold_left add l zero.

(** [np.prod] along an axis: numpy reduces a non-empty axis from its first
    entry; an empty product is the identity. *)
Definition prod (l : list R) : R :=
  match l with
  | [] => one
  | x :: l' => fold_left mul l' x
  end.

(** [np.empty(s)]: the entries are unspecified until written; [zero] stands
    for them. *)
Definition np_empty (s : list nat) : ndarray R :=
  mk_nd s (repeat zero (size s)).

(** [np.diff(a, axis=0)] of a 2-D array, that is [a[1:] - a[:-1]] *)
Definition np_diff (a : ndarray R) : ndarray R :=
  mk_nd [nrows a - 1; ncols a]
        (map (fun xy => sub (fst xy) (snd xy))
             (combine (skipn (ncols a) (data a)) (data a))).

(** [np.power(x, p)] with an integer array of exponents *)
Definition np_power (x : ndarray R) (p : ndarray Z) : res (ndarray R) :=
  broadcast2 pow x p.

(** [np.prod(x, axis=1)] *)
Definition np_prod_axis1 (x : ndarray R) : res (ndarray R) :=
  match shape x with
  | n :: m :: rest =>
      Ok (mk_nd (n :: rest)
            (build (n * size rest)
               (fun p =>
                  let i := p / size rest in
                  let r := p mod size rest in
                  prod (build m (fun a => get (data x) ((i * m + a) * size rest + r))))))
  | _ => Raise ValueError
  end.

(** [a /= s] *)
Definition idiv (a : ndarray R) (s : R) : ndarray R :=
  mk_nd (shape a) (map (fun x => div x s) (data a)).

(** *** [cartesian_product] (lines 36-42) *)

(** [np.ix_] of the arrays: array [i] keeps its entries along axis [i] of an
    open mesh with as many axes as there are arrays. *)
Definition np_ix_ (arrays : list (list R)) : list (ndarray R) :=
  map (fun ia => mk_nd (ix_shape (length arrays) (fst ia) (length (snd ia))) (snd ia))
      (enumerate arrays).

(** [arr[..., i] = a]: [a] is broadcast over the leading axes of [arr] *)
Definition assign_last (arr : ndarray R) (i : nat) (a : ndarray R) : res (ndarray R) :=
  let la := last (shape arr) 0 in
  let lens := removelast (shape arr) in
  if (length (shape a) <=? length lens)
     && bcast_to (pad_shape (length lens) (shape a)) lens
  then Ok (mk_nd (shape arr)
             (build (length (data arr))
                (fun p => if p mod la =? i
                          then bget a (length lens) (unravel lens (p / la))
                          else get (data arr) p)))
  else Raise ValueError.

(** [[
      la = len(arrays)
      arr = np.empty([len(a) for a in arrays] + [la], dtype=np.float64)
      for i, a in enumerate(np.ix_ of the arrays):
          arr[..., i] = a
      return arr.reshape(-1, la)
    ]] *)
Definition cartesian_product (arrays : list (list R)) : res (ndarray R) :=
  let la := length arrays in
  let arr := np_empty (map (@length R) arrays ++ [la]) in
  arr <- fold_left (fun acc ia => arr <- acc ;; assign_last arr (fst ia) (snd ia))
                   (enumerate (np_ix_ arrays)) (Ok arr) ;;
  reshape_rows arr la.

(** What [cartesian_product] amounts to: row [r], column [c] holds the
    entry of sequence [c] at the [c]-th coordinate of the multi-index of
    [r] in the shape of the sequences' lengths. *)
Definition mesh_of (arrays : list (list R)) : ndarray R :=
  let la := length arrays in
  let lens := map (@length R) arrays in
  mk_nd [size lens; la]
    (build (size lens * la)
       (fun p => get (nth (p mod la) arrays [])
                     (nth (p mod la) (unravel lens (p / la)) 0))).

(** *** [scipy.signal.convolve(in1, in2, mode='same')]

    The direct method, which scipy takes for arrays of the sizes met here
    (for large arrays it may take the FFT instead, which only approximates
    these sums). *)

(** The index of [in1] that meets index [m] of [in2] in the entry [n] of
    the output: [n + start - m] on every axis, when it lies inside [in1];
    [start] is the offset of the centred window in the full convolution. *)
Fixpoint conv_src (s1 n start m : list nat) : option (list nat) :=
  match s1, n, start, m with
  | [], [], [], [] => Some []
  | d :: s1', i :: n', c :: start', j :: m' =>
      if (j <=? i + c) && (i + c - j <? d)
      then option_map (cons (i + c - j)) (conv_src s1' n' start' m')
      else None
  | _, _, _, _ => None
  end.

Definition conv_start (s2 : list nat) : list nat := map (fun d => (d - 1) / 2) s2.

(** Which of the two direct methods runs.  For two 1-D arrays, the first at
    least as long as the second, scipy hands over to [np.convolve], which
    multiplies the overlapping entries only.  Otherwise it copies [in1] into
    an array of zeros of the size of the full convolution and walks it with
    a zero-padded window of the shape of [in2]: every entry of [in2] is
    multiplied, by an entry of [in1] or by a zero. *)
Definition conv_padded (in1 in2 : ndarray R) : bool :=
  negb ((length (shape in1) =? 1) && (length (shape in2) =? 1)
        && (size (shape in2) <=? size (shape in1))).

(** The products summed in the entry [n] of the output, one for each index
    of [in2]; where the index of [in1] falls outside [in1] the product is
    left out, or is [0 * in2[m]] when [in1] is padded. *)
Definition conv_terms (padded : bool) (in1 in2 : ndarray R) (n : list nat) : list R :=
  flat_map
    (fun q =>
       match conv_src (shape in1) n (conv_start (shape in2)) (unravel (shape in2) q) with
       | Some t => [mul (at_index in1 t) (get (data in2) q)]
       | None => if padded then [mul zero (get (data in2) q)] else []
       end)
    (seq 0 (size (shape in2))).

Definition conv_entry (in1 in2 : ndarray R) (n : list nat) : R :=
  sum (conv_terms (conv_padded in1 in2) in1 in2 n).

(** The centred part of the full convolution that has the shape of [in1] *)
Definition conv_of (in1 in2 : ndarray R) : ndarray R :=
  mk_nd (shape in1)
    (build (size (shape in1)) (fun p => conv_entry in1 in2 (unravel (shape in1) p))).

(** [convolve(in1, in2, mode='same')]: the output has the size of [in1],
    centred with respect to the full convolution; the two arguments must
    have the same number of axes. *)
Definition convolve_same (in1 in2 : ndarray R) : res (ndarray R) :=
  if length (shape in1) =? length (shape in2)
  then Ok (conv_of in1 in2)
  else Raise ValueError.

(** Arrays of shape [s] laid side by side along a new last axis *)
Definition stack_of (s : list nat) (l : list (ndarray R)) : ndarray R :=
  mk_nd (s ++ [length l])
    (build (size s * length l)
       (fun p => get (data (nth (p mod length l) l (np_empty s))) (p / length l))).

(** [np.stack(l, axis=-1)]: at least one array, all of one shape *)
Definition np_stack_last (l : list (ndarray R)) : res (ndarray R) :=
  match l with
  | [] => Raise ValueError
  | a :: _ =>
      if forallb (fun b => shape_eqb (shape b) (shape a)) l
      then Ok (stack_of (shape a) l)
      else Raise ValueError
  end.

End Numeric.

(** ** The histogram builder *)

Section Histogram.

Context {R : Type} `{Scalar R}.

Definition minimum (l : list R) : R :=
  match l with
  | [] => zero
  | x :: l' => fold_left (fun m y => if leb y m then y else m) l' x
  end.

Definition maximum (l : list R) : R :=
  match l with
  | [] => zero
  | x :: l' => fold_left (fun m y => if leb m y then y else m) l' x
  end.

(** [a[:, d]] of a 2-D array *)
Definition column (a : ndarray R) (d : nat) : list R :=
  build (nrows a) (fun i => get2 a i d).

(** The range the edges of one dimension cover: the data range.  The
    specification is silent on two cases, which are settled as numpy does: a
    range that is a single point is widened by one half on each side, so
    that the edges increase strictly, and without any sample the range is
    the unit interval. *)
Definition data_range (col : list R) : R * R :=
  match col with
  | [] => (zero, one)
  | _ =>
      let lo := minimum col in
      let hi := maximum col in
      let half := div one (add one one) in
      if leb hi lo then (sub lo half, add hi half) else (lo, hi)
  end.

(** [n] bins of equal width over a range: [n + 1] edges *)
Definition bin_edges (range : R * R) (n : nat) : list R :=
  let lo := fst range in
  let hi := snd range in
  build (S n) (fun j => if j =? n then hi
                        else add lo (mul (of_nat j) (div (sub hi lo) (of_nat n)))).

(** The bin of a coordinate: the number of edges at or below it, less one;
    a coordinate on the upper boundary goes to the last bin. *)
Definition bin_of (edges : list R) (x : R) : nat :=
  Nat.min (length (filter (fun e => leb e x) edges) - 1) (length edges - 2).

(** The flat index of the cell a sample row falls in *)
Definition cell_of (edges : list (list R)) (bins : list nat) (x : list R) : nat :=
  ravel bins (map (fun ex => bin_of (fst ex) (snd ex)) (combine edges x)).

(** The volume of the cell with multi-index [j] *)
Definition cell_volume (edges : list (list R)) (j : list nat) : R :=
  prod (map (fun ej => sub (get (fst ej) (S (snd ej))) (get (fst ej) (snd ej)))
            (combine edges j)).

(** The density of one cell: the weights [w i] of the samples [i] that fall
    in the cell, summed and divided by the number of samples times the
    cell's volume. *)
Definition cell_density (sample : ndarray R) (edges : list (list R)) (bins : list nat)
    (w : nat -> R) (c : nat) : R :=
  div (sum (map w (filter (fun i => cell_of edges bins (row sample i) =? c)
                          (seq 0 (nrows sample)))))
      (mul (of_nat (nrows sample)) (cell_volume edges (unravel bins c))).

Definition hist_edges (sample : ndarray R) (bins : list nat) : list (list R) :=
  map (fun db => bin_edges (data_range (column sample (fst db))) (snd db))
      (enumerate bins).

(** Modelled from the spec: [histogramdd] of [kramersmoyal/binning.py],
    which is not among the sources; section 4.1 and the data model of the
    specification give its contract.  The edges are determined once, from
    the range of the sample, [bins[d] + 1] of them in dimension [d], and
    every channel is binned with them.  With weights of shape [(n, K)] the
    histogram has shape [(bins..., K)]: entry [(j, k)] is the sum of the
    weights [weights[i, k]] of the samples in cell [j], scaled by
    1/(n * cell volume), [n] being the number of rows binned, so that the
    unweighted histogram integrates to 1.  A sample on the upper boundary
    goes to the last bin.  Without weights every sample counts 1 and the
    histogram has shape [(bins...)].  A sample whose dimension differs from
    the length of [bins], or weights that are not one row per sample, raise
    the dimensionality-mismatch error. *)
Definition histogramdd (sample : ndarray R) (bins : list nat)
    (weights : option (ndarray R)) : res (ndarray R * list (list R)) :=
  _ <- guard ((length (shape sample) =? 2) && (ncols sample =? length bins))
             ShapeMismatchError ;;
  let edges := hist_edges sample bins in
  match weights with
  | None =>
      Ok (mk_nd bins
            (build (size bins) (cell_density sample edges bins (fun _ => one))),
          edges)
  | Some w =>
      _ <- guard ((length (shape w) =? 2) && (nrows w =? nrows sample))
                 ShapeMismatchError ;;
      let K := ncols w in
      Ok (mk_nd (bins ++ [K])
            (build (size bins * K)
               (fun p => cell_density sample edges bins (fun i => get2 w i (p mod K)) (p / K))),
          edges)
  end.

End Histogram.

(** ** The estimator (lines 6-62) *)

Section Estimator.

Context {R : Type} `{Scalar R}.

(** The caller's kernel: from the mesh and the bandwidth to an array with
    one entry per mesh point. *)
Definition kernel_fn : Type := ndarray R -> R -> ndarray R.

(** Lines 45-46: the increments and their powers *)
Definition kmc_weights (timeseries : ndarray R) (powers : ndarray Z) : res (ndarray R) :=
  let grads := np_diff timeseries in
  pw <- np_power (expand_last grads) powers ;;
  np_prod_axis1 pw.

(** What lines 45-46 amount to for powers of shape [(D, K)]: entry
    [(i, k)] is the product over [d] of [grads[i, d] ** powers[d, k]]. *)
Definition weights_of (timeseries : ndarray R) (powers : ndarray Z) (N D K : nat)
    : ndarray R :=
  mk_nd [N - 1; K]
    (build ((N - 1) * K)
       (fun p => prod (build D (fun d => pow (get2 (np_diff timeseries) (p / K) d)
                                             (get2 powers d (p mod K)))))).

(** The weights in the words of the specification, for powers of shape
    [(K, D)]: entry [(i, k)] is the product over [d] of
    [grads[i, d] ** powers[k, d]]. *)
Definition weights_rowwise (timeseries : ndarray R) (powers : ndarray Z) (N D K : nat)
    : ndarray R :=
  mk_nd [N - 1; K]
    (build ((N - 1) * K)
       (fun p => prod (build D (fun d => pow (get2 (np_diff timeseries) (p / K) d)
                                             (get2 powers (p mod K) d))))).

(** Lines 49-50: the weighted histogram *)
Definition kmc_hist (timeseries : ndarray R) (bins : list nat) (powers : ndarray Z)
    : res (ndarray R * list (list R)) :=
  weights <- kmc_weights timeseries powers ;;
  histogramdd (tail_rows timeseries) bins (Some weights).

(** Line 53: the mesh the kernel is evaluated at *)
Definition kmc_mesh (edges : list (list R)) : res (ndarray R) :=
  cartesian_product edges.

(** Lines 53-55: the kernel field, normalized in place *)
Definition kmc_kernel (edges : list (list R)) (kernel : kernel_fn) (bw : R)
    : res (ndarray R) :=
  mesh <- kmc_mesh edges ;;
  kernel_ <- reshape (kernel mesh bw) (map (@length R) edges) ;;
  Ok (idiv kernel_ (sum (data kernel_))).

(** The kernel field of lines 53-55 for a kernel that returns one entry per
    mesh point *)
Definition kernel_field (edges : list (list R)) (kernel : kernel_fn) (bw : R) : ndarray R :=
  let k := kernel (mesh_of edges) bw in
  idiv (mk_nd (map (@length R) edges) (data k)) (sum (data k)).

(** [powers.shape[1]] *)
Definition shape1 (powers : ndarray Z) : res nat :=
  match nth_error (shape powers) 1 with
  | Some n => Ok n
  | None => Raise IndexError
  end.

(** Lines 57-60: one convolution per column of [powers] *)
Definition kmc_convolve (kernel_ hist : ndarray R) (powers : ndarray Z)
    : res (list (ndarray R)) :=
  n <- shape1 powers ;;
  for_each (fun p => convolve_same kernel_ (channel hist p)) (seq 0 n).

(** The estimator, stage by stage:
    [[
      grads = np.diff(timeseries, axis=0)
      weights = np.prod(np.power(grads[..., None], powers), axis=1)
      hist, edges = histogramdd(timeseries[1:, ...], bins=bins,
                                weights=weights, density=True)
      mesh = cartesian_product(edges)
      kernel_ = kernel(mesh, bw=bw).reshape(the sizes of the edges)
      kernel_ /= np.sum(kernel_)
      for p in range(powers.shape[1]):
          kmc.append(convolve(kernel_, hist[..., p], mode='same'))
      return np.stack(kmc, axis=-1), edges
    ]] *)
Definition kmc_kernel_estimator (timeseries : ndarray R) (bins : list nat)
    (kernel : kernel_fn) (bw : R) (powers : ndarray Z)
    : res (ndarray R * list (list R)) :=
  he <- kmc_hist timeseries bins powers ;;
  let hist := fst he in
  let edges := snd he in
  kernel_ <- kmc_kernel edges kernel bw ;;
  kmc <- kmc_convolve kernel_ hist powers ;;
  out <- np_stack_last kmc ;;
  Ok (out, edges).

(** The histogram of lines 49-50 for powers of shape [(D, K)] *)
Definition hist_of (timeseries : ndarray R) (bins : list nat) (powers : ndarray Z)
    (N D K : nat) : ndarray R :=
  let sample := tail_rows timeseries in
  let w := weights_of timeseries powers N D K in
  mk_nd (bins ++ [K])
    (build (size bins * K)
       (fun p => cell_density sample (hist_edges sample bins) bins
                   (fun i => get2 w i (p mod K)) (p / K))).

(** The result of the estimator on a valid input *)
Definition kmc_of (timeseries : ndarray R) (bins : list nat) (kernel : kernel_fn)
    (bw : R) (powers : ndarray Z) (N D K : nat) : ndarray R :=
  let edges := hist_edges (tail_rows timeseries) bins in
  let kernel_ := kernel_field edges kernel bw in
  let hist := hist_of timeseries bins powers N D K in
  stack_of (map S bins) (map (fun p => conv_of kernel_ (channel hist p)) (seq 0 K)).

(** The inputs the estimator is written for: a series of [N >= 2] samples in
    [D >= 1] dimensions, one positive bin count per dimension, powers with
    one row per dimension and [K >= 1] columns, and a kernel that returns
    one entry per mesh point. *)
Record valid_input (timeseries : ndarray R) (bins : list nat) (kernel : kernel_fn)
    (bw : R) (powers : ndarray Z) (N D K : nat) : Prop := {
  v_shape : shape timeseries = [N; D];
  v_wf : wf timeseries;
  v_samples : 2 <= N;
  v_dim : 1 <= D;
  v_bins : length bins = D;
  v_bins_pos : Forall (lt 0) bins;
  v_powers : shape powers = [D; K];
  v_powers_wf : wf powers;
  v_channels : 1 <= K;
  v_kernel : forall mesh, length (data (kernel mesh bw)) = nrows mesh
}.

End Estimator.

(** ** The estimator over a heap of array objects

    The same program with Python's objects made explicit: every array lives
    at a location of the heap, a numpy call reads its operands there and
    allocates its result, a view shares the location of its base, and the
    in-place division of line 55 writes through the view [kernel_] into the
    array the kernel returned. *)

Section Heap.

Context {R : Type} `{Scalar R}.

Inductive obj : Type :=
| ArrF (a : ndarray R)
| ArrZ (a : ndarray Z)
| ArrN (bins : list nat)
| ListF (edges : list (list R)).

Definition loc : Type := nat.
Definition heap : Type := list obj.

(** A computation on the heap that may raise *)
Definition M (A : Type) : Type := heap -> res (A * heap).

Definition ret {A : Type} (a : A) : M A := fun h => Ok (a, h).

Definition hbind {A B : Type} (m : M A) (k : A -> M B) : M B :=
  fun h => match m h with
           | Ok (a, h') => k a h'
           | Raise e => Raise e
           end.

Definition lift {A : Type} (m : res A) : M A :=
  fun h => match m with
           | Ok a => Ok (a, h)
           | Raise e => Raise e
           end.

(** A new object, at the first free location *)
Definition new (o : obj) : M loc := fun h => Ok (length h, h ++ [o]).

Definition load_f (l : loc) : M (ndarray R) :=
  fun h => match nth_error h l with
           | Some (ArrF a) => Ok (a, h)
           | _ => Raise TypeError
           end.

Definition load_z (l : loc) : M (ndarray Z) :=
  fun h => match nth_error h l with
           | Some (ArrZ a) => Ok (a, h)
           | _ => Raise TypeError
           end.

Definition load_n (l : loc) : M (list nat) :=
  fun h => match nth_error h l with
           | Some (ArrN b) => Ok (b, h)
           | _ => Raise TypeError
           end.

Definition load_l (l : loc) : M (list (list R)) :=
  fun h => match nth_error h l with
           | Some (ListF e) => Ok (e, h)
           | _ => Raise TypeError
           end.

(** Overwriting the object at a location *)
Definition store (l : loc) (o : obj) : M unit :=
  fun h => if l <? length h
           then Ok (tt, firstn l h ++ o :: skipn (S l) h)
           else Raise IndexError.

End Heap.

Notation "x <~ m ;; k" := (hbind m (fun x => k))
  (at level 61, m at next level, right associativity).

Fixpoint for_each_m {R : Type} {A B : Type} (f : A -> @M R B) (l : list A) : @M R (list B) :=
  match l with
  | [] => ret []
  | x :: l' => y <~ f x ;; ys <~ for_each_m f l' ;; ret (y :: ys)
  end.

Section HeapEstimator.

Context {R : Type} `{Scalar R}.

(** [kernel_]: the view of the kernel's array in the shape of the edges *)
Definition kernel_view (kout edges : loc) : M (ndarray R) :=
  k <~ load_f kout ;;
  e <~ load_l edges ;;
  lift (reshape k (map (@length R) e)).

(** A Python callable returns an object: one it has just made, or one that
    exists already (an array it keeps, or one it was handed).  The kernel
    is a computation on the heap, from the location of the mesh and the
    bandwidth to the location of the array it returns. *)
Definition kernel_call : Type := loc -> R -> @M R loc.

(** A kernel that builds its array afresh at each call *)
Definition allocating (kernel : kernel_fn) : kernel_call :=
  fun mesh bw => m <~ load_f mesh ;; new (ArrF (kernel m bw)).

(** A kernel that returns the array at location [c]: one it keeps between
    calls, or an array of the caller *)
Definition cached (c : loc) : kernel_call := fun _ _ => ret c.

(** Lines 45-53: up to the mesh; the locations of the histogram, of the
    edges and of the mesh *)
Definition kmc_heap_front (timeseries bins powers : loc) : M (loc * loc * loc) :=
  (* line 45 *)
  ts <~ load_f timeseries ;;
  grads <~ new (ArrF (np_diff ts)) ;;
  (* line 46 *)
  g <~ load_f grads ;;
  pw <~ load_z powers ;;
  x <~ lift (np_power (expand_last g) pw) ;;
  raised <~ new (ArrF x) ;;
  x <~ load_f raised ;;
  w <~ lift (np_prod_axis1 x) ;;
  weights <~ new (ArrF w) ;;
  (* lines 49-50: [timeseries[1:, ...]] is a view, read by the builder *)
  ts <~ load_f timeseries ;;
  b <~ load_n bins ;;
  w <~ load_f weights ;;
  he <~ lift (histogramdd (tail_rows ts) b (Some w)) ;;
  hist <~ new (ArrF (fst he)) ;;
  edges <~ new (ListF (snd he)) ;;
  (* line 53 *)
  e <~ load_l edges ;;
  m <~ lift (cartesian_product e) ;;
  mesh <~ new (ArrF m) ;;
  ret (hist, edges, mesh).

(** Line 55: the division, written through the view into the array at
    [kout] *)
Definition kmc_heap_normalize (kout edges : loc) : M unit :=
  view <~ kernel_view kout edges ;;
  k <~ load_f kout ;;
  store kout (ArrF (mk_nd (shape k) (data (idiv view (sum (data view)))))).

(** Lines 57-62: the convolutions and the stacked result *)
Definition kmc_heap_back (hist edges kout powers : loc) : M (loc * loc) :=
  pw <~ load_z powers ;;
  n <~ lift (shape1 pw) ;;
  kmc <~ for_each_m
           (fun p =>
              view <~ kernel_view kout edges ;;
              h <~ load_f hist ;;
              c <~ lift (convolve_same view (channel h p)) ;;
              new (ArrF c))
           (seq 0 n) ;;
  arrays <~ for_each_m load_f kmc ;;
  out <~ lift (np_stack_last arrays) ;;
  result <~ new (ArrF out) ;;
  ret (result, edges).

Definition kmc_kernel_estimator_heap (timeseries bins : loc) (kernel : kernel_call)
    (bw : R) (powers : loc) : M (loc * loc) :=
  front <~ kmc_heap_front timeseries bins powers ;;
  let hist := fst (fst front) in
  let edges := snd (fst front) in
  let mesh := snd front in
  (* line 54: whatever array the kernel returns *)
  kout <~ kernel mesh bw ;;
  (* line 55 *)
  _ <~ kmc_heap_normalize kout edges ;;
  kmc_heap_back hist edges kout powers.

(** A computation keeps a property of the heap. *)
Definition keeps {A : Type} (P : @heap R -> Prop) (m : @M R A) : Prop :=
  forall h a h', P h -> m h = Ok (a, h') -> P h'.

(** What location [c] of the heap holds *)
Definition holds (c : loc) (o : obj) : @heap R -> Prop :=
  fun h => nth_error h c = Some o.

(** The kernel spares location [l]: a call leaves the object there as it
    is, and the array it returns is another object. *)
Definition spares (kernel : kernel_call) (bw : R) (l : loc) : Prop :=
  forall mesh h c h' o,
    nth_error h l = Some o -> kernel mesh bw h = Ok (c, h') ->
    nth_error h' l = Some o /\ c <> l.

End HeapEstimator.

(** ** Concrete inputs (binary64) *)

Module Inputs.
Import F64.
Open Scope float_scope.

(** A 1-D series of four samples, and a 2-D series of three *)
Definition ts1 : ndarray float := mk_nd [4; 1]%nat [0; 1; 3; 4].
Definition ts2 : ndarray float := mk_nd [3; 2]%nat [0; 0; 1; 2; 3; 3].

(** Powers for the 1-D series: one row, the columns 0 and 1 *)
Definition pw1 : ndarray Z := mk_nd [1; 2]%nat [0; 1]%Z.
(** One channel in one dimension: the first moment *)
Definition pw11 : ndarray Z := mk_nd [1; 1]%nat [1%Z].
(** A negative exponent *)
Definition pw_neg : ndarray Z := mk_nd [1; 1]%nat [(-1)%Z].
(** Three rows of one column *)
Definition pw_31 : ndarray Z := mk_nd [3; 1]%nat [1; 1; 1]%Z.
(** Powers for the 2-D series: rows (1,0) and (1,0); rows (0,0) and (1,1) *)
Definition pw2 : ndarray Z := mk_nd [2; 2]%nat [1; 0; 1; 0]%Z.
Definition pw2_zero_row : ndarray Z := mk_nd [2; 2]%nat [0; 0; 1; 1]%Z.

(** A kernel that is 1 at every mesh point, and one that is 0 *)
Definition const_kernel (c : float) : kernel_fn :=
  fun mesh _ => mk_nd [nrows mesh] (repeat c (nrows mesh)).
Definition ones_kernel : kernel_fn := const_kernel 1.
Definition zero_kernel : kernel_fn := const_kernel 0.

(** A heap holding the three array arguments at locations 0, 1 and 2 *)
Definition heap1 : heap := [ArrF ts1; ArrN [2%nat]; ArrZ pw1].

(** The same arguments, and at location 3 an array a kernel keeps between
    calls, of one entry per mesh point *)
Definition heap_cached : heap :=
  [ArrF ts1; ArrN [2%nat]; ArrZ pw11; ArrF (mk_nd [3%nat] [1; 1; 2])].

(** Three bins for the four samples: the series has one entry per mesh
    point *)
Definition heap_bins3 : heap := [ArrF ts1; ArrN [3%nat]; ArrZ pw11].

End Inputs.

(** * Properties *)

(** ** Lists built by index *)

Lemma length_build {A : Type} (n : nat) (f : nat -> A) : length (build n f) = n.
Proof. unfold build. now rewrite length_map, length_seq. Qed.

Lemma nth_build {A : Type} (n : nat) (f : nat -> A) (i : nat) (d : A) :
  i < n -> nth i (build n f) d = f i.
Proof.
  intro Hi. unfold build.
  rewrite (nth_indep _ d (f 0)) by now rewrite length_map, length_seq.
  now rewrite map_nth, seq_nth.
Qed.

Lemma get_build {A : Type} `{Default A} (n : nat) (f : nat -> A) (i : nat) :
  i < n -> get (build n f) i = f i.
Proof. apply nth_build. Qed.

Lemma build_ext {A : Type} (n : nat) (f g : nat -> A) :
  (forall i, i < n -> f i = g i) -> build n f = build n g.
Proof.
  intro E. unfold build. apply map_ext_in.
  intros i Hi. apply in_seq in Hi. apply E. lia.
Qed.

Lemma build_nth {A : Type} (l : list A) (d : A) :
  build (length l) (fun i => nth i l d) = l.
Proof.
  apply nth_ext with (d := d) (d' := d).
  - apply length_build.
  - intros i Hi. rewrite length_build in Hi.
    now rewrite (nth_build (fun j => nth j l d) d Hi).
Qed.

Lemma nth_map_in {A B : Type} (f : A -> B) (l : list A) (i : nat) (d : B) (d' : A) :
  i < length l -> nth i (map f l) d = f (nth i l d').
Proof.
  intro Hi. rewrite (nth_indep _ d (f d')) by now rewrite length_map.
  apply map_nth.
Qed.

Lemma nth_skipn {A : Type} (l : list A) (k i : nat) (d : A) :
  nth i (skipn k l) d = nth (k + i) l d.
Proof.
  revert l. induction k as [|k IH]; intros [|x l]; simpl; auto.
  now destruct i.
Qed.

Lemma nth_combine_lt {A B : Type} (l1 : list A) (l2 : list B) (i : nat) (d1 : A) (d2 : B) :
  i < length l1 -> i < length l2 ->
  nth i (combine l1 l2) (d1, d2) = (nth i l1 d1, nth i l2 d2).
Proof.
  revert l2 i. induction l1 as [|x l1 IH]; intros [|y l2] [|i]; simpl; intros; try lia; auto.
  apply IH; lia.
Qed.

(** ** Shapes and indices *)

Lemma size_app (s t : list nat) : size (s ++ t) = size s * size t.
Proof.
  induction s as [|n s IH]; simpl.
  - lia.
  - fold (size (s ++ t)). fold (size s). rewrite IH. lia.
Qed.

Lemma size_cons (n : nat) (s : list nat) : size (n :: s) = n * size s.
Proof. reflexivity. Qed.

Lemma size_pos (s : list nat) : Forall (lt 0) s -> 0 < size s.
Proof.
  induction 1 as [|n s Hn _ IH]; simpl; [lia|].
  fold (size s). nia.
Qed.

Lemma ravel_lt (s idx : list nat) : in_shape idx s -> ravel s idx < size s.
Proof.
  intro F. induction F as [|i n idx s Hi _ IH]; simpl; [lia|].
  fold (size s). nia.
Qed.

Lemma unravel_in_shape (s : list nat) (p : nat) :
  p < size s -> in_shape (unravel s p) s.
Proof.
  revert p. induction s as [|n s IH]; intros p Hp; simpl.
  - constructor.
  - rewrite size_cons in Hp.
    assert (0 < size s) by nia.
    constructor.
    + apply Nat.Div0.div_lt_upper_bound. lia.
    + apply IH. now apply Nat.mod_upper_bound, Nat.neq_0_lt_0.
Qed.

Lemma length_unravel (s : list nat) (p : nat) : length (unravel s p) = length s.
Proof. revert p. induction s as [|n s IH]; intro p; simpl; [|rewrite IH]; reflexivity. Qed.

Lemma ravel_unravel (s : list nat) (p : nat) : p < size s -> ravel s (unravel s p) = p.
Proof.
  revert p. induction s as [|n s IH]; intros p Hp; simpl.
  - simpl in Hp. lia.
  - rewrite size_cons in Hp.
    assert (0 < size s) by nia.
    rewrite IH by now apply Nat.mod_upper_bound, Nat.neq_0_lt_0.
    rewrite (Nat.div_mod_eq p (size s)) at 3. lia.
Qed.

Lemma unravel_ravel (s idx : list nat) : in_shape idx s -> unravel s (ravel s idx) = idx.
Proof.
  intro F. induction F as [|i n idx s Hi F IH]; simpl; [reflexivity|].
  pose proof (ravel_lt F) as Hr.
  assert (E1 : (i * size s + ravel s idx) / size s = i).
  { rewrite Nat.add_comm, Nat.div_add by lia. rewrite Nat.div_small; lia. }
  assert (E2 : (i * size s + ravel s idx) mod size s = ravel s idx).
  { rewrite Nat.add_comm, Nat.Div0.mod_add. now apply Nat.mod_small. }
  now rewrite E1, E2, IH.
Qed.

Lemma shape_eqb_refl (s : list nat) : shape_eqb s s = true.
Proof. induction s; simpl; [|rewrite Nat.eqb_refl]; auto. Qed.

(** ** The array operations on the examples of the numpy documentation *)

(** [np.diff([[1, 3, 6, 10], [0, 5, 6, 8]], axis=0)] is [[-1, 2, 0, -2]]. *)
Example np_diff_doc :
  np_diff (mk_nd [2; 4] [1; 3; 6; 10; 0; 5; 6; 8]%float)
  = mk_nd [1; 4] [-1; 2; 0; -2]%float.
Proof. reflexivity. Qed.

(** [np.convolve([1, 2, 3], [0, 1, 0.5], 'same')] is [1, 2.5, 4]. *)
Example convolve_same_doc :
  convolve_same (mk_nd [3] [1; 2; 3]%float) (mk_nd [3] [0; 1; 0.5]%float)
  = Ok (mk_nd [3] [1; 2.5; 4]%float).
Proof. reflexivity. Qed.

(** With a second argument of even length the window starts at the first
    entry of the full convolution 10, 120, 230, 300. *)
Example convolve_same_even :
  convolve_same (mk_nd [3] [1; 2; 3]%float) (mk_nd [2] [10; 100]%float)
  = Ok (mk_nd [3] [10; 120; 230]%float).
Proof. reflexivity. Qed.

(** Two axes: the full convolution of [[1, 2], [3, 4]] with [[1, 1]] is
    [[1, 3, 2], [3, 7, 4]], of which the first two columns are kept. *)
Example convolve_same_2d :
  convolve_same (mk_nd [2; 2] [1; 2; 3; 4]%float) (mk_nd [1; 2] [1; 1]%float)
  = Ok (mk_nd [2; 2] [1; 3; 3; 7]%float).
Proof. reflexivity. Qed.

(** An entry that is not finite.  In one dimension only the overlapping
    entries are multiplied; with two axes the first argument is padded
    with zeros, and 0 * inf is not a number. *)
Example convolve_same_1d_inf :
  convolve_same (mk_nd [2] [1; 2]%float) (mk_nd [2] [1; infinity]%float)
  = Ok (mk_nd [2] [1; infinity]%float).
Proof. reflexivity. Qed.

Example convolve_same_2d_inf :
  convolve_same (mk_nd [2; 2] [1; 2; 3; 4]%float) (mk_nd [1; 2] [1; infinity]%float)
  = Ok (mk_nd [2; 2] [nan; infinity; nan; infinity]%float).
Proof. reflexivity. Qed.

(** Shapes (3, 1) and (1, 2) broadcast to (3, 2); shapes (2, 2, 1) and (3, 1)
    do not broadcast. *)
Example np_power_broadcast :
  np_power (mk_nd [3; 1] [2; 3; 4]%float) (mk_nd [1; 2] [1; 2]%Z)
  = Ok (mk_nd [3; 2] [2; 4; 3; 9; 4; 16]%float).
Proof. reflexivity. Qed.

Example np_power_mismatch :
  np_power (mk_nd [2; 2; 1] [1; 2; 3; 4]%float) (mk_nd [3; 1] [1; 1; 1]%Z)
  = Raise ValueError.
Proof. reflexivity. Qed.

(** [np.prod([[1, 2], [3, 4]], axis=1)] is [2, 12]. *)
Example np_prod_doc :
  np_prod_axis1 (mk_nd [2; 2] [1; 2; 3; 4]%float) = Ok (mk_nd [2] [2; 12]%float).
Proof. reflexivity. Qed.

(** [np.stack] of two arrays of shape (3,) along a new last axis *)
Example np_stack_last_doc :
  np_stack_last [mk_nd [3] [1; 2; 3]%float; mk_nd [3] [4; 5; 6]%float]
  = Ok (mk_nd [3; 2] [1; 4; 2; 5; 3; 6]%float).
Proof. reflexivity. Qed.

(** The Cartesian product of (1, 2, 3) and (4, 5), row by row *)
Example cartesian_product_doc :
  cartesian_product [[1; 2; 3]; [4; 5]]%float
  = Ok (mk_nd [6; 2] [1; 4; 1; 5; 2; 4; 2; 5; 3; 4; 3; 5]%float).
Proof. reflexivity. Qed.

(** Two samples make one increment, and the estimator returns. *)
Example two_samples :
  exists out edges,
    kmc_kernel_estimator (mk_nd [2; 1] [0; 1]%float) [2] Inputs.ones_kernel 1%float Inputs.pw11
    = Ok (out, edges)
    /\ shape (np_diff (mk_nd [2; 1] [0; 1]%float)) = [1; 1]
    /\ edges = [[0.5; 1; 1.5]]%float.
Proof. eexists _, _. repeat split; reflexivity. Qed.

(** ** The weights (lines 45-46) *)

Section WeightsFacts.

Context {R : Type} `{Scalar R}.

(** Entry [(i, d)] of the increments is [a[i+1, d] - a[i, d]]. *)
Lemma get2_np_diff (a : ndarray R) (N D i d : nat) :
  shape a = [N; D] -> wf a -> i < N - 1 -> d < D ->
  get2 (np_diff a) i d = sub (get2 a (i + 1) d) (get2 a i d).
Proof.
  intros Hs Hw Hi Hd.
  unfold get2, get, np_diff, ncols, wf in *. rewrite Hs in *. simpl in *.
  rewrite nth_map_in with (d' := (dflt, dflt)).
  2:{ rewrite length_combine, length_skipn, Hw. nia. }
  rewrite nth_combine_lt; [|rewrite length_skipn; nia|nia].
  simpl. rewrite nth_skipn. do 2 f_equal. lia.
Qed.

End WeightsFacts.

Lemma bshape_weights (n D K : nat) : bshape [n; D; 1] [1; D; K] = Some [n; D; K].
Proof.
  cbn -[Nat.eqb].
  repeat (match goal with
          | |- context [?a =? ?b] => destruct (Nat.eqb_spec a b)
          end; subst; cbn -[Nat.eqb]); congruence.
Qed.

Lemma div_mul_add (i k K : nat) : k < K -> (i * K + k) / K = i.
Proof. intro Hk. rewrite Nat.add_comm, Nat.div_add by lia. rewrite Nat.div_small; lia. Qed.

Lemma mod_mul_add (i k K : nat) : k < K -> (i * K + k) mod K = k.
Proof. intro Hk. rewrite Nat.add_comm, Nat.Div0.mod_add. now apply Nat.mod_small. Qed.

Section WeightsRun.

Context {R : Type} `{Scalar R}.

Lemma kmc_weights_run (timeseries : ndarray R) (powers : ndarray Z) (N D K : nat) :
  shape timeseries = [N; D] -> shape powers = [D; K] ->
  kmc_weights timeseries powers = Ok (weights_of timeseries powers N D K).
Proof.
  intros Hs Hp.
  unfold kmc_weights, np_power, broadcast2, expand_last, weights_of.
  assert (Hsg : shape (np_diff timeseries) = [N - 1; D]).
  { unfold np_diff, nrows, ncols. now rewrite Hs. }
  cbn [shape data]. rewrite Hsg, Hp. cbn [app length Nat.max].
  unfold pad_shape. cbn [length Nat.sub repeat app].
  rewrite bshape_weights. cbn [bind].
  unfold np_prod_axis1. cbn [shape data].
  f_equal. f_equal.
  replace (size [K]) with K by (simpl; lia).
  apply build_ext. intros p Hp'.
  {
    assert (HK : 0 < K) by nia.
    assert (Hi : p / K < N - 1) by (apply Nat.Div0.div_lt_upper_bound; lia).
    assert (Hk : p mod K < K) by (apply Nat.mod_upper_bound; lia).
    f_equal. apply build_ext. intros d Hd.
    rewrite get_build.
    2:{ rewrite !size_cons. simpl size. nia. }
    set (i := p / K) in *. set (k := p mod K) in *.
    assert (Eidx : unravel [N - 1; D; K] ((i * D + d) * K + k) = [i; d; k]).
    { rewrite <- (@unravel_ravel [N - 1; D; K] [i; d; k]).
      - f_equal. simpl. nia.
      - repeat constructor; assumption. }
    rewrite Eidx. unfold bget, pad_shape. cbn [shape data length Nat.sub repeat app].
    rewrite Hp. cbn [length Nat.sub repeat app].
    f_equal.
    + unfold get2, ncols. rewrite Hsg. cbn [nth].
      f_equal. simpl clip.
      destruct (N - 1 =? 1) eqn:E1; destruct (D =? 1) eqn:E2;
        try apply Nat.eqb_eq in E1; try apply Nat.eqb_eq in E2; simpl; nia.
    + unfold get2, ncols. rewrite Hp. cbn [nth].
      f_equal. simpl clip.
      destruct (D =? 1) eqn:E1; destruct (K =? 1) eqn:E2;
        try apply Nat.eqb_eq in E1; try apply Nat.eqb_eq in E2; simpl; nia.
  }
Qed.

End WeightsRun.

Section WeightsClaim.

Context {R : Type} `{Scalar R}.

Lemma get2_weights_of (timeseries : ndarray R) (powers : ndarray Z) (N D K i k : nat) :
  i < N - 1 -> k < K ->
  get2 (weights_of timeseries powers N D K) i k
  = prod (build D (fun d => pow (get2 (np_diff timeseries) i d) (get2 powers d k))).
Proof.
  intros Hi Hk. unfold get2 at 1, weights_of, ncols. cbn [shape data nth].
  rewrite get_build by nia.
  now rewrite div_mul_add, mod_mul_add.
Qed.

(** C3, as the code has it.  The powers matrix has shape (D, K): one row per
    dimension and one column per channel.  The weights then form an
    (N-1, K) array whose entry (i, k) is the product over the dimensions d
    of the increment [timeseries[i+1, d] - timeseries[i, d]] raised to
    [powers[d, k]]: column k of the powers matrix defines channel k. *)
Theorem kmc_weights_spec (timeseries : ndarray R) (powers : ndarray Z) (N D K : nat) :
  shape timeseries = [N; D] -> wf timeseries -> 2 <= N ->
  shape powers = [D; K] ->
  exists weights,
    kmc_weights timeseries powers = Ok weights
    /\ shape weights = [N - 1; K]
    /\ forall i k, i < N - 1 -> k < K ->
         get2 weights i k
         = prod (build D (fun d => pow (sub (get2 timeseries (i + 1) d) (get2 timeseries i d))
                                       (get2 powers d k))).
Proof.
  intros Hs Hw HN Hp. exists (weights_of timeseries powers N D K).
  split; [now apply kmc_weights_run|].
  split; [reflexivity|].
  intros i k Hi Hk. rewrite get2_weights_of by assumption.
  f_equal. apply build_ext. intros d Hd.
  now rewrite (get2_np_diff Hs Hw Hi Hd).
Qed.

End WeightsClaim.

Lemma kmc_weights_spec_witness :
  exists weights,
    kmc_weights Inputs.ts1 Inputs.pw1 = Ok weights
    /\ shape weights = [3; 2]
    /\ get2 weights 1 1 = 2%float.
Proof.
  destruct (@kmc_weights_spec float F64.float_scalar Inputs.ts1 Inputs.pw1 4 1 2)
    as (w & Hrun & Hshape & Hentry); try reflexivity; try lia.
  exists w. split; [exact Hrun|]. split; [exact Hshape|].
  rewrite Hentry by lia. reflexivity.
Defined.

(** Telling two results apart by a boolean observation *)
Lemma observe_neq {A : Type} (f : A -> bool) (x y : A) :
  f x = true -> f y = false -> x <> y.
Proof. intros Hx Hy E. rewrite E in Hx. congruence. Qed.

(** C3 fails as stated, for powers of shape (K, D).  With D = K = 2 and the
    rows (1,0) and (1,0), the weight of increment (1,2) in channel 0 is
    1 * 2, not 1; with K = 3 rows for D = 1 the weights have one column,
    not three. *)
Lemma kmc_weights_rowwise_counterexample :
  kmc_weights Inputs.ts2 Inputs.pw2 <> Ok (weights_rowwise Inputs.ts2 Inputs.pw2 3 2 2)
  /\ kmc_weights Inputs.ts1 Inputs.pw_31 <> Ok (weights_rowwise Inputs.ts1 Inputs.pw_31 4 1 3).
Proof.
  split.
  - apply observe_neq with
      (f := fun r => match r with
                     | Ok w => PrimFloat.eqb (get2 w 0 0) 2%float
                     | Raise _ => false
                     end); reflexivity.
  - apply observe_neq with
      (f := fun r => match r with
                     | Ok w => shape_eqb (shape w) [3; 1]
                     | Raise _ => false
                     end); reflexivity.
Qed.

(** ** The mesh generator (lines 36-42) *)

Lemma size_ones (m : nat) : size (repeat 1 m) = 1.
Proof. induction m as [|m IH]; simpl; [|fold (size (repeat 1 m)); rewrite IH]; reflexivity. Qed.

Lemma ravel_clip_ones (m : nat) (idx : list nat) :
  ravel (repeat 1 m) (clip (repeat 1 m) idx) = 0.
Proof.
  revert idx. induction m as [|m IH]; intros [|i idx]; simpl; auto.
Qed.

Lemma length_ix_shape (k i n : nat) : i < k -> length (ix_shape k i n) = k.
Proof.
  intro Hi. unfold ix_shape. rewrite length_app. simpl. rewrite !repeat_length. lia.
Qed.

Lemma ravel_one_hot (i n m : nat) (idx : list nat) :
  i < length idx -> nth i idx 0 < n ->
  ravel (repeat 1 i ++ n :: repeat 1 m) (clip (repeat 1 i ++ n :: repeat 1 m) idx)
  = nth i idx 0.
Proof.
  revert idx.
  induction i as [|i IH]; intros [|j idx] Hi Hn; simpl in *; try lia.
  - fold (size (repeat 1 m)). rewrite size_ones, ravel_clip_ones.
    destruct (Nat.eqb_spec n 1); lia.
  - apply IH; lia.
Qed.

(** Reading array [i] of the open mesh at an index of the full mesh gives
    the coordinate of axis [i]. *)
Lemma ravel_ix_shape (k i n : nat) (idx : list nat) :
  i < length idx -> nth i idx 0 < n ->
  ravel (ix_shape k i n) (clip (ix_shape k i n) idx) = nth i idx 0.
Proof. apply ravel_one_hot. Qed.

Lemma bcast_to_ones (m : nat) (t : list nat) : length t = m -> bcast_to (repeat 1 m) t = true.
Proof.
  revert t. induction m as [|m IH]; intros [|n t] Hl; simpl in Hl; try lia; auto.
  cbn [repeat bcast_to]. change (1 =? 1) with true.
  rewrite orb_true_r. apply IH. lia.
Qed.

Lemma bcast_to_ix_shape (lens : list nat) (i : nat) :
  i < length lens -> bcast_to (ix_shape (length lens) i (nth i lens 0)) lens = true.
Proof.
  unfold ix_shape. revert i.
  induction lens as [|n lens IH]; intros [|i] Hi; simpl in Hi; try lia.
  - cbn [repeat app nth bcast_to]. rewrite Nat.eqb_refl. simpl.
    apply bcast_to_ones. lia.
  - cbn [repeat app nth bcast_to length]. change (1 =? 1) with true.
    rewrite orb_true_r. simpl. apply IH. lia.
Qed.

Lemma combine_app_eq {A B : Type} (a1 a2 : list A) (b1 b2 : list B) :
  length a1 = length b1 ->
  combine (a1 ++ a2) (b1 ++ b2) = combine a1 b1 ++ combine a2 b2.
Proof.
  revert b1. induction a1 as [|x a1 IH]; intros [|y b1] Hl; simpl in *; try lia; auto.
  f_equal. apply IH. lia.
Qed.

Lemma enumerate_snoc {A : Type} (l : list A) (x : A) :
  enumerate (l ++ [x]) = enumerate l ++ [(length l, x)].
Proof.
  unfold enumerate. rewrite length_app, seq_app. simpl.
  now rewrite combine_app_eq by now rewrite length_seq.
Qed.

(** A loop over [enumerate l] keeps an invariant indexed by the number of
    entries already visited. *)
Lemma fold_enumerate_inv {A St : Type} (f : St -> nat * A -> St) (l : list A) (d : A)
    (P : nat -> St -> Prop) (s0 : St) :
  P 0 s0 ->
  (forall i s, i < length l -> P i s -> P (S i) (f s (i, nth i l d))) ->
  P (length l) (fold_left f (enumerate l) s0).
Proof.
  induction l as [|x l IH] using rev_ind; intros H0 Hstep; simpl; auto.
  rewrite enumerate_snoc, fold_left_app, length_app. simpl.
  rewrite Nat.add_1_r.
  pose proof (Hstep (length l) (fold_left f (enumerate l) s0)) as Hs.
  rewrite nth_middle in Hs. apply Hs.
  - rewrite length_app. simpl. lia.
  - apply IH; auto.
    intros i s Hi HP.
    replace (nth i l d) with (nth i (l ++ [x]) d) by now rewrite app_nth1.
    apply Hstep; auto. rewrite length_app. simpl. lia.
Qed.

Lemma length_enumerate {A : Type} (l : list A) : length (enumerate l) = length l.
Proof. unfold enumerate. rewrite length_combine, length_seq. lia. Qed.

Lemma nth_enumerate {A : Type} (l : list A) (i : nat) (d : A) :
  i < length l -> nth i (enumerate l) (0, d) = (i, nth i l d).
Proof.
  intro Hi. unfold enumerate.
  rewrite nth_combine_lt by (rewrite ?length_seq; lia).
  now rewrite seq_nth.
Qed.

Lemma build_const {A : Type} (n : nat) (x : A) : build n (fun _ => x) = repeat x n.
Proof.
  apply nth_ext with (d := x) (d' := x).
  - now rewrite length_build, repeat_length.
  - intros i Hi. rewrite length_build in Hi.
    rewrite (nth_build (fun _ => x) x Hi). now rewrite nth_repeat.
Qed.

Lemma in_shape_nth (idx s : list nat) (i : nat) :
  in_shape idx s -> i < length s -> nth i idx 0 < nth i s 0.
Proof.
  intro F. revert i. induction F as [|j n idx s Hj _ IH]; intros [|i] Hi; simpl in *; try lia.
  apply IH. lia.
Qed.

Lemma in_shape_length (idx s : list nat) : in_shape idx s -> length idx = length s.
Proof. induction 1; simpl; congruence. Qed.

Section CartesianRun.

Context {R : Type} `{Scalar R}.

Lemma length_np_ix_ (arrays : list (list R)) : length (np_ix_ arrays) = length arrays.
Proof. unfold np_ix_. now rewrite length_map, length_enumerate. Qed.

Lemma nth_np_ix_ (arrays : list (list R)) (i : nat) (d : ndarray R) :
  i < length arrays ->
  nth i (np_ix_ arrays) d
  = mk_nd (ix_shape (length arrays) i (length (nth i arrays []))) (nth i arrays []).
Proof.
  intro Hi. unfold np_ix_.
  rewrite nth_map_in with (d' := (0, [])) by now rewrite length_enumerate.
  now rewrite nth_enumerate.
Qed.

(** The loop of lines 40-41 fills column after column of the mesh; the
    reshape of line 42 then lays the mesh points out as rows. *)
Lemma cartesian_product_run (arrays : list (list R)) :
  arrays <> [] -> cartesian_product arrays = Ok (mesh_of arrays).
Proof.
  intro Hne.
  assert (Hla : 0 < length arrays) by (destruct arrays; [congruence|simpl; lia]).
  set (la := length arrays) in *. set (lens := map (@length R) arrays).
  assert (Hll : length lens = la) by apply length_map.
  set (entry := fun p => get (nth (p mod la) arrays [])
                             (nth (p mod la) (unravel lens (p / la)) 0)).
  set (s := lens ++ [la]).
  assert (Hsz : size s = size lens * la).
  { unfold s. rewrite size_app. simpl. lia. }
  assert (Hlast : last s 0 = la) by apply last_last.
  assert (Hrl : removelast s = lens) by apply removelast_last.
  unfold cartesian_product. fold la lens s.
  pose (P := fun (t : nat) (acc : res (ndarray R)) =>
               acc = Ok (mk_nd s (build (size s)
                                    (fun p => if p mod la <? t then entry p else zero)))).
  assert (HP : P (length (np_ix_ arrays))
                 (fold_left (fun acc ia => arr <- acc ;; assign_last arr (fst ia) (snd ia))
                            (enumerate (np_ix_ arrays)) (Ok (np_empty s)))).
  { apply fold_enumerate_inv with (d := np_empty s).
    - unfold P, np_empty. do 2 f_equal. symmetry.
      rewrite <- build_const. apply build_ext. intros p _.
      destruct (p mod la <? 0) eqn:E; [apply Nat.ltb_lt in E; lia|reflexivity].
    - intros t acc Ht ->. rewrite length_np_ix_ in Ht. fold la in Ht.
      unfold P. cbn [bind fst snd].
      rewrite nth_np_ix_ by assumption. fold la.
      unfold assign_last. cbn [shape data].
      rewrite !Hlast, !Hrl.
      rewrite length_ix_shape by assumption. rewrite Hll.
      rewrite Nat.leb_refl. unfold pad_shape.
      rewrite length_ix_shape by assumption.
      rewrite Nat.sub_diag. cbn [repeat app andb].
      assert (Hn : length (nth t arrays []) = nth t lens 0).
      { unfold lens. rewrite nth_map_in with (d' := []); auto. }
      rewrite Hn. rewrite <- Hll at 1. rewrite bcast_to_ix_shape by lia.
      do 2 f_equal. rewrite length_build.
      apply build_ext. intros p Hp.
      assert (Hq : p / la < size lens).
      { apply Nat.Div0.div_lt_upper_bound. lia. }
      pose proof (unravel_in_shape lens Hq) as Hin.
      destruct (Nat.eqb_spec (p mod la) t) as [E|E].
      + rewrite (proj2 (Nat.ltb_lt _ _)) by lia.
        unfold bget, pad_shape. cbn [shape data].
        rewrite length_ix_shape by assumption.
        rewrite Nat.sub_diag. cbn [repeat app].
        rewrite ravel_ix_shape.
        * unfold entry. now rewrite E.
        * rewrite (in_shape_length Hin). lia.
        * apply in_shape_nth; auto. lia.
      + rewrite get_build by assumption.
        destruct (Nat.ltb_spec (p mod la) t); destruct (Nat.ltb_spec (p mod la) (S t));
          try reflexivity; lia. }
  unfold P in HP. rewrite HP. cbn [bind].
  unfold reshape_rows. cbn [data]. rewrite length_build, Hsz.
  rewrite Nat.Div0.mod_mul, Nat.div_mul by lia.
  destruct (Nat.eqb_spec la 0); [lia|]. cbn [orb negb Nat.eqb].
  unfold mesh_of. fold la lens. do 2 f_equal.
  rewrite length_np_ix_. fold la.
  apply build_ext. intros p Hp.
  destruct (Nat.ltb_spec (p mod la) la) as [_|Hge]; [reflexivity|].
  pose proof (Nat.mod_upper_bound p la). lia.
Qed.

End CartesianRun.

(** *** The mesh against the Cartesian product of the specification *)

Lemma length_cart {A : Type} (arrays : list (list A)) :
  length (cart arrays) = size (map (@length A) arrays).
Proof.
  induction arrays as [|a arrays IH]; simpl; [reflexivity|].
  fold (size (map (@length A) arrays)). rewrite <- IH.
  induction a as [|x a IHa]; simpl; [reflexivity|].
  now rewrite length_app, length_map, IHa.
Qed.

(** Entry [r] of a concatenation of blocks of one length [m] *)
Lemma nth_flat_map_const {A B : Type} (f : A -> list B) (l : list A) (m r : nat)
    (da : A) (db : B) :
  (forall x, length (f x) = m) -> r < length l * m ->
  nth r (flat_map f l) db = nth (r mod m) (f (nth (r / m) l da)) db.
Proof.
  intros Hm. revert r. induction l as [|x l IH]; intros r Hr; simpl in *; [lia|].
  assert (0 < m) by nia.
  destruct (Nat.lt_ge_cases r m) as [Hlt|Hge].
  - rewrite app_nth1 by now rewrite Hm.
    now rewrite Nat.div_small, Nat.mod_small.
  - rewrite app_nth2 by now rewrite Hm.
    rewrite Hm, IH by lia.
    replace r with ((r - m) + 1 * m) at 3 4 by lia.
    rewrite Nat.div_add, Nat.Div0.mod_add by lia.
    rewrite Nat.add_1_r. reflexivity.
Qed.

Lemma nth_cart {A : Type} (arrays : list (list A)) (r : nat) (d : A) :
  r < size (map (@length A) arrays) ->
  nth r (cart arrays) []
  = map (fun ai => nth (snd ai) (fst ai) d)
        (combine arrays (unravel (map (@length A) arrays) r)).
Proof.
  revert r. induction arrays as [|a arrays IH]; intros r Hr.
  - simpl in *. now replace r with 0 by lia.
  - cbn [map] in Hr. cbn [cart map unravel combine]. rewrite size_cons in Hr.
    set (m := size (map (@length A) arrays)) in *.
    assert (Hm : 0 < m) by nia.
    rewrite nth_flat_map_const with (m := m) (da := d).
    + rewrite nth_map_in with (d' := []).
      * cbn [fst snd]. f_equal. apply IH.
        now apply Nat.mod_upper_bound, Nat.neq_0_lt_0.
      * rewrite length_cart. now apply Nat.mod_upper_bound, Nat.neq_0_lt_0.
    + intro x. now rewrite length_map, length_cart.
    + lia.
Qed.

Lemma map_combine_build {A B : Type} (f : A * nat -> B) (l : list A) (idx : list nat) (d : A) :
  length idx = length l ->
  map f (combine l idx) = build (length l) (fun c => f (nth c l d, nth c idx 0)).
Proof.
  intro Hl. apply nth_ext with (d := f (d, 0)) (d' := f (d, 0)).
  - rewrite length_map, length_combine, length_build. lia.
  - intros i Hi. rewrite length_map, length_combine in Hi.
    rewrite nth_build by lia.
    rewrite (map_nth f), nth_combine_lt by lia. reflexivity.
Qed.

Section CartesianSpec.

Context {R : Type} `{Scalar R}.

Lemma rows_mesh_of (arrays : list (list R)) :
  arrays <> [] -> rows (mesh_of arrays) = cart arrays.
Proof.
  intro Hne.
  assert (Hla : 0 < length arrays) by (destruct arrays; [congruence|simpl; lia]).
  apply nth_ext with (d := []) (d' := []).
  - unfold rows, mesh_of, nrows. cbn [shape nth]. now rewrite length_build, length_cart.
  - intros r Hr. unfold rows, mesh_of, nrows in *. cbn [shape nth] in *.
    rewrite length_build in Hr. rewrite nth_build by assumption.
    rewrite nth_cart with (d := zero) by assumption.
    rewrite map_combine_build with (d := [])
      by now rewrite length_unravel, length_map.
    unfold row, get2, ncols. cbn [shape data nth fst snd].
    apply build_ext. intros c Hc.
    rewrite get_build by nia.
    now rewrite div_mul_add, mod_mul_add.
Qed.

End CartesianSpec.

Lemma NoDup_map_cons {A : Type} (x : A) (l : list (list A)) :
  NoDup l -> NoDup (map (cons x) l).
Proof.
  induction 1 as [|u l Hu _ IH]; simpl; constructor; auto.
  intro Hin. apply in_map_iff in Hin as (v & E & Hv).
  injection E as ->. contradiction.
Qed.

Lemma NoDup_cart {A : Type} (arrays : list (list A)) :
  Forall (@NoDup A) arrays -> NoDup (cart arrays).
Proof.
  induction 1 as [|a arrays Ha _ IH]; simpl.
  - repeat constructor. intros [].
  - induction Ha as [|x a Hx _ IHa]; simpl; [constructor|].
    apply NoDup_app.
    + now apply NoDup_map_cons.
    + assumption.
    + intros t Ht1 Ht2.
      apply in_map_iff in Ht1 as (u & <- & _).
      apply in_flat_map in Ht2 as (y & Hy & Hin).
      apply in_map_iff in Hin as (v & E & _).
      injection E as -> _. contradiction.
Qed.

Section CartesianClaim.

Context {R : Type} `{Scalar R}.

Lemma get2_mesh_of (arrays : list (list R)) (r c : nat) :
  r < size (map (@length R) arrays) -> c < length arrays ->
  get2 (mesh_of arrays) r c
  = get (nth c arrays []) (nth c (unravel (map (@length R) arrays) r) 0).
Proof.
  intros Hr Hc. unfold get2, mesh_of, ncols. cbn [shape data nth].
  rewrite get_build by nia.
  now rewrite div_mul_add, mod_mul_add.
Qed.

Lemma mesh_of_single (a : list R) : mesh_of [a] = mk_nd [length a; 1] a.
Proof.
  unfold mesh_of. cbn [length map]. f_equal.
  - simpl. now rewrite Nat.mul_1_r.
  - replace (size [length a] * 1) with (length a) by (simpl; lia).
    transitivity (build (length a) (fun i => nth i a zero)); [|apply build_nth].
    apply build_ext. intros p Hp.
    rewrite Nat.mod_1_r. cbn [nth unravel size fold_right].
    now rewrite !Nat.div_1_r.
Qed.

(** C8. For at least one coordinate sequence, [cartesian_product] returns
    an array of shape (product of the lengths, D) whose rows are the
    Cartesian product of the sequences in row-major order: row [r] holds,
    in column [c], the entry of sequence [c] at coordinate [c] of the
    multi-index of [r] in an array of shape [(len(edges[0]), ...)].  The
    rows are pairwise distinct when every sequence has distinct entries,
    and a single sequence comes back as one column. *)
Theorem cartesian_product_spec (arrays : list (list R)) :
  arrays <> [] ->
  exists mesh,
    cartesian_product arrays = Ok mesh
    /\ shape mesh = [size (map (@length R) arrays); length arrays]
    /\ rows mesh = cart arrays
    /\ (forall r c,
          r < size (map (@length R) arrays) -> c < length arrays ->
          get2 mesh r c
          = get (nth c arrays []) (nth c (unravel (map (@length R) arrays) r) 0))
    /\ (Forall (@NoDup R) arrays -> NoDup (rows mesh))
    /\ (forall a, arrays = [a] -> mesh = mk_nd [length a; 1] a).
Proof.
  intro Hne. exists (mesh_of arrays).
  split; [now apply cartesian_product_run|].
  split; [reflexivity|].
  split; [now apply rows_mesh_of|].
  split; [intros; now apply get2_mesh_of|].
  split.
  - intro Hnd. rewrite rows_mesh_of by assumption. now apply NoDup_cart.
  - intros a ->. apply mesh_of_single.
Qed.

End CartesianClaim.

Lemma cartesian_product_spec_witness :
  exists mesh,
    cartesian_product [[1; 2]; [3; 4; 5]]%float = Ok mesh
    /\ shape mesh = [6; 2]
    /\ rows mesh = [[1; 3]; [1; 4]; [1; 5]; [2; 3]; [2; 4]; [2; 5]]%float.
Proof.
  destruct (@cartesian_product_spec float F64.float_scalar [[1; 2]; [3; 4; 5]]%float)
    as (mesh & Hrun & Hshape & Hrows & _); [discriminate|].
  exists mesh. repeat split; assumption.
Defined.

(** ** The weighted histogram (lines 49-50) *)

Section HistogramFacts.

Context {R : Type} `{Scalar R}.

(** The array [histogramdd] returns for weights of [K] columns *)
Lemma histogramdd_run (sample : ndarray R) (bins : list nat) (w : ndarray R) (n D K : nat) :
  shape sample = [n; D] -> length bins = D -> shape w = [n; K] ->
  histogramdd sample bins (Some w)
  = Ok (mk_nd (bins ++ [K])
          (build (size bins * K)
             (fun p => cell_density sample (hist_edges sample bins) bins
                         (fun i => get2 w i (p mod K)) (p / K))),
        hist_edges sample bins).
Proof.
  intros Hs Hb Hw. unfold histogramdd, ncols, nrows. rewrite Hs, Hw, Hb.
  cbn [length nth]. now rewrite !Nat.eqb_refl.
Qed.

Lemma histogramdd_unweighted_run (sample : ndarray R) (bins : list nat) (n D : nat) :
  shape sample = [n; D] -> length bins = D ->
  histogramdd sample bins None
  = Ok (mk_nd bins
          (build (size bins)
             (cell_density sample (hist_edges sample bins) bins (fun _ => one))),
        hist_edges sample bins).
Proof.
  intros Hs Hb. unfold histogramdd, ncols. rewrite Hs, Hb.
  cbn [length nth]. now rewrite !Nat.eqb_refl.
Qed.

Lemma length_hist_edges (sample : ndarray R) (bins : list nat) :
  length (hist_edges sample bins) = length bins.
Proof. unfold hist_edges. now rewrite length_map, length_enumerate. Qed.

(** Dimension [d] has [bins[d] + 1] edges. *)
Lemma nth_hist_edges_length (sample : ndarray R) (bins : list nat) (d : nat) :
  d < length bins ->
  length (nth d (hist_edges sample bins) []) = nth d bins 0 + 1.
Proof.
  intro Hd. unfold hist_edges.
  rewrite nth_map_in with (d' := (0, 0)) by now rewrite length_enumerate.
  rewrite nth_enumerate by assumption.
  unfold bin_edges. rewrite length_build. cbn [snd]. lia.
Qed.

Lemma map_length_hist_edges (sample : ndarray R) (bins : list nat) :
  map (@length R) (hist_edges sample bins) = map S bins.
Proof.
  apply nth_ext with (d := 0) (d' := 0).
  - now rewrite !length_map, length_hist_edges.
  - intros d Hd. rewrite length_map, length_hist_edges in Hd.
    rewrite nth_map_in with (d' := []) by now rewrite length_hist_edges.
    rewrite nth_map_in with (d' := 0) by assumption.
    rewrite nth_hist_edges_length by assumption. lia.
Qed.

Lemma shape_tail_rows (a : ndarray R) (N D : nat) :
  shape a = [N; D] -> shape (tail_rows a) = [N - 1; D].
Proof. intro Hs. unfold tail_rows, nrows, ncols. now rewrite Hs. Qed.

(** Row [i] of [timeseries[1:]] is row [i + 1] of the series. *)
Lemma get2_tail_rows (a : ndarray R) (N D i d : nat) :
  shape a = [N; D] -> d < D ->
  get2 (tail_rows a) i d = get2 a (i + 1) d.
Proof.
  intros Hs Hd. unfold get2, get, tail_rows, ncols. rewrite Hs. cbn [shape data nth].
  rewrite nth_skipn. f_equal. lia.
Qed.

(** The histogram of line 49 for powers of shape (D, K) *)
Lemma kmc_hist_run (timeseries : ndarray R) (bins : list nat) (powers : ndarray Z)
    (N D K : nat) :
  shape timeseries = [N; D] -> shape powers = [D; K] -> length bins = D ->
  let sample := tail_rows timeseries in
  let w := weights_of timeseries powers N D K in
  kmc_hist timeseries bins powers
  = Ok (mk_nd (bins ++ [K])
          (build (size bins * K)
             (fun p => cell_density sample (hist_edges sample bins) bins
                         (fun i => get2 w i (p mod K)) (p / K))),
        hist_edges sample bins).
Proof.
  intros Hs Hp Hb sample w. unfold kmc_hist.
  rewrite (kmc_weights_run _ _ Hs Hp). cbn [bind].
  now apply histogramdd_run with (n := N - 1) (D := D); [apply shape_tail_rows| |].
Qed.

End HistogramFacts.

Section HistogramClaims.

Context {R : Type} `{Scalar R}.

(** C2, as the code has it.  The rows that are binned are the N-1 rows
    [timeseries[1], ..., timeseries[N-1]] of the series itself (the state
    reached by each increment), not the increments; the increments enter
    only through the weights.  One set of edges, computed from those rows,
    serves all K channels, and entry (j, k) of the histogram is the density
    of cell j under the weights of channel k. *)
Theorem kmc_hist_bins_states (timeseries : ndarray R) (bins : list nat)
    (powers : ndarray Z) (N D K : nat) :
  shape timeseries = [N; D] -> wf timeseries -> 2 <= N ->
  length bins = D -> shape powers = [D; K] ->
  exists weights hist edges,
    kmc_weights timeseries powers = Ok weights
    /\ kmc_hist timeseries bins powers = Ok (hist, edges)
    /\ histogramdd (tail_rows timeseries) bins (Some weights) = Ok (hist, edges)
    /\ shape (tail_rows timeseries) = [N - 1; D]
    /\ (forall i d, i < N - 1 -> d < D ->
          get2 (tail_rows timeseries) i d = get2 timeseries (i + 1) d)
    /\ (forall i d, i < N - 1 -> d < D ->
          get2 (np_diff timeseries) i d
          = sub (get2 timeseries (i + 1) d) (get2 timeseries i d))
    /\ edges = hist_edges (tail_rows timeseries) bins
    /\ shape hist = bins ++ [K]
    /\ (forall j k, j < size bins -> k < K ->
          get (data hist) (j * K + k)
          = cell_density (tail_rows timeseries) edges bins (fun i => get2 weights i k) j).
Proof.
  intros Hs Hw HN Hb Hp.
  pose proof (@kmc_hist_run _ _ timeseries bins powers N D K Hs Hp Hb) as Hrun. cbv zeta in Hrun.
  eexists _, _, _.
  split; [now apply kmc_weights_run with (N := N) (D := D) (K := K)|].
  split; [exact Hrun|].
  split.
  { apply histogramdd_run with (n := N - 1) (D := D); auto using shape_tail_rows. }
  split; [now apply shape_tail_rows|].
  split; [intros; now apply get2_tail_rows with (N := N) (D := D)|].
  split; [intros; now apply get2_np_diff with (N := N) (D := D)|].
  split; [reflexivity|].
  split; [reflexivity|].
  intros j k Hj Hk. cbn [data].
  rewrite get_build by nia.
  now rewrite div_mul_add, mod_mul_add.
Qed.

Lemma prod_ones `{!ScalarLaws R} (n : nat) : prod (repeat one n) = one.
Proof.
  destruct n as [|n]; [reflexivity|]. simpl.
  induction n as [|n IH]; simpl; [reflexivity|].
  now rewrite mul_1_1.
Qed.

(** A weight function matters only on the samples. *)
Lemma cell_density_ext (sample : ndarray R) (edges : list (list R)) (bins : list nat)
    (w1 w2 : nat -> R) (c : nat) :
  (forall i, i < nrows sample -> w1 i = w2 i) ->
  cell_density sample edges bins w1 c = cell_density sample edges bins w2 c.
Proof.
  intro E. unfold cell_density. do 2 f_equal.
  apply map_ext_in. intros i Hi.
  apply filter_In in Hi as [Hi _]. apply in_seq in Hi. apply E. lia.
Qed.

(** C9, as the code has it.  A channel k whose column of the (D, K) powers
    matrix is entirely zero has all its weights equal to 1, and its weighted
    histogram is the plain unweighted density histogram of the rows that are
    binned, [timeseries[1:]]. *)
Theorem zero_power_column `{!ScalarLaws R} (timeseries : ndarray R) (bins : list nat)
    (powers : ndarray Z) (N D K k : nat) :
  shape timeseries = [N; D] -> wf timeseries -> 2 <= N ->
  length bins = D -> shape powers = [D; K] ->
  k < K -> (forall d, d < D -> get2 powers d k = 0%Z) ->
  exists weights hist edges plain,
    kmc_weights timeseries powers = Ok weights
    /\ (forall i, i < N - 1 -> get2 weights i k = one)
    /\ kmc_hist timeseries bins powers = Ok (hist, edges)
    /\ histogramdd (tail_rows timeseries) bins None = Ok (plain, edges)
    /\ channel hist k = plain.
Proof.
  intros Hs Hw HN Hb Hp Hk Hz.
  pose proof (@kmc_hist_run _ _ timeseries bins powers N D K Hs Hp Hb) as Hrun. cbv zeta in Hrun.
  assert (Hone : forall i, i < N - 1 ->
                   get2 (weights_of timeseries powers N D K) i k = one).
  { intros i Hi. rewrite get2_weights_of by assumption.
    rewrite <- (prod_ones D), <- build_const. f_equal.
    apply build_ext. intros d Hd. rewrite Hz by assumption. apply pow_0. }
  eexists _, _, _, _.
  split; [now apply kmc_weights_run with (N := N) (D := D) (K := K)|].
  split; [exact Hone|].
  split; [exact Hrun|].
  split.
  { apply histogramdd_unweighted_run with (n := N - 1) (D := D);
      auto using shape_tail_rows. }
  unfold channel. cbn [shape data].
  rewrite last_last, removelast_last. f_equal.
  apply build_ext. intros q Hq.
  rewrite get_build by nia.
  rewrite div_mul_add, mod_mul_add by assumption.
  apply cell_density_ext. intros i Hi. apply Hone.
  unfold nrows in Hi.
  now rewrite shape_tail_rows with (N := N) (D := D) in Hi by assumption.
Qed.

End HistogramClaims.

Lemma kmc_hist_bins_states_witness :
  exists weights hist edges,
    kmc_weights Inputs.ts1 Inputs.pw1 = Ok weights
    /\ kmc_hist Inputs.ts1 [2] Inputs.pw1 = Ok (hist, edges)
    /\ histogramdd (tail_rows Inputs.ts1) [2] (Some weights) = Ok (hist, edges)
    /\ edges = [[1; 2.5; 4]]%float.
Proof.
  destruct (@kmc_hist_bins_states float F64.float_scalar Inputs.ts1 [2] Inputs.pw1 4 1 2)
    as (w & h & e & H1 & H2 & H3 & _ & _ & _ & He & _); try reflexivity; try lia.
  exists w, h, e. repeat split; assumption.
Defined.

(** C2 fails as stated.  For the series 0, 1, 3, 4 the rows passed to the
    histogram builder are 1, 3, 4, not the increments 1, 2, 1; the edges are
    1, 2.5, 4, where the histogram of the increments would have the edges
    1, 1.5, 2. *)
Lemma kmc_hist_increments_counterexample :
  tail_rows Inputs.ts1 <> np_diff Inputs.ts1
  /\ kmc_hist Inputs.ts1 [2] Inputs.pw11
     <> (w <- kmc_weights Inputs.ts1 Inputs.pw11 ;;
         histogramdd (np_diff Inputs.ts1) [2] (Some w)).
Proof.
  split.
  - apply observe_neq with (f := fun a => PrimFloat.eqb (get2 a 1 0) 3%float);
      reflexivity.
  - apply observe_neq with
      (f := fun r => match r with
                     | Ok he => PrimFloat.eqb (get (nth 0 (snd he) []) 2) 4%float
                     | Raise _ => false
                     end); reflexivity.
Qed.

Lemma zero_power_column_witness :
  exists weights hist edges plain,
    kmc_weights Inputs.ts1 Inputs.pw1 = Ok weights
    /\ (forall i, i < 3 -> get2 weights i 0 = 1%float)
    /\ kmc_hist Inputs.ts1 [2] Inputs.pw1 = Ok (hist, edges)
    /\ histogramdd (tail_rows Inputs.ts1) [2] None = Ok (plain, edges)
    /\ channel hist 0 = plain.
Proof.
  apply (@zero_power_column float F64.float_scalar F64.float_laws
           Inputs.ts1 [2] Inputs.pw1 4 1 2 0); try reflexivity; try lia.
  intros d Hd. replace d with 0 by lia. reflexivity.
Defined.

(** C9 fails as stated, for powers of shape (K, D).  With the rows (0,0)
    and (1,1), row 0 is entirely zero, yet the weight of increment (1,2) in
    channel 0 is 1^0 * 2^1 = 2. *)
Lemma zero_power_row_counterexample :
  exists weights,
    kmc_weights Inputs.ts2 Inputs.pw2_zero_row = Ok weights
    /\ (forall d, d < 2 -> get2 Inputs.pw2_zero_row 0 d = 0%Z)
    /\ get2 weights 0 0 <> one.
Proof.
  eexists. split; [reflexivity|]. split.
  - intros [|[|d]] Hd; try reflexivity. lia.
  - apply observe_neq with (f := fun x => PrimFloat.eqb x 2%float); reflexivity.
Qed.

(** ** The kernel field, the convolutions and the stacked result *)

Lemma for_each_ok {A B : Type} (f : A -> res B) (g : A -> B) (l : list A) :
  (forall x, In x l -> f x = Ok (g x)) -> for_each f l = Ok (map g l).
Proof.
  induction l as [|x l IH]; intro Hf; simpl; [reflexivity|].
  rewrite Hf by now left. cbn [bind].
  rewrite IH by (intros; apply Hf; now right). reflexivity.
Qed.


Section EstimatorRun.

Context {R : Type} `{Scalar R}.

Lemma nrows_mesh_of (arrays : list (list R)) :
  nrows (mesh_of arrays) = size (map (@length R) arrays).
Proof. reflexivity. Qed.

(** Lines 53-55 on edges of at least one dimension *)
Lemma kmc_kernel_run (edges : list (list R)) (kernel : kernel_fn) (bw : R) :
  edges <> [] ->
  length (data (kernel (mesh_of edges) bw)) = size (map (@length R) edges) ->
  kmc_kernel edges kernel bw = Ok (kernel_field edges kernel bw).
Proof.
  intros Hne Hk. unfold kmc_kernel, kmc_mesh.
  rewrite cartesian_product_run by assumption. cbn [bind].
  unfold reshape. rewrite Hk, Nat.eqb_refl. reflexivity.
Qed.

Lemma shape_channel (a : ndarray R) (s : list nat) (K k : nat) :
  shape a = s ++ [K] -> shape (channel a k) = s.
Proof. intro Hs. unfold channel. rewrite Hs. cbn [shape]. apply removelast_last. Qed.

(** Lines 57-60 for powers of [K] columns *)
Lemma kmc_convolve_run (kernel_ hist : ndarray R) (powers : ndarray Z)
    (bins : list nat) (D K : nat) :
  shape powers = [D; K] -> shape hist = bins ++ [K] ->
  length (shape kernel_) = length bins ->
  kmc_convolve kernel_ hist powers
  = Ok (map (fun p => conv_of kernel_ (channel hist p)) (seq 0 K)).
Proof.
  intros Hp Hh Hk. unfold kmc_convolve, shape1. rewrite Hp. cbn [nth_error bind].
  apply for_each_ok. intros p _. unfold convolve_same.
  rewrite shape_channel with (s := bins) (K := K) by assumption.
  now rewrite Hk, Nat.eqb_refl.
Qed.

(** [np.stack] of at least one array, all of shape [s] *)
Lemma np_stack_last_run (l : list (ndarray R)) (s : list nat) :
  l <> [] -> Forall (fun a => shape a = s) l ->
  np_stack_last l = Ok (stack_of s l).
Proof.
  intros Hne Hall. unfold np_stack_last.
  destruct l as [|a l]; [congruence|].
  assert (Ha : shape a = s) by now inversion Hall.
  rewrite Ha.
  replace (forallb (fun b => shape_eqb (shape b) s) (a :: l)) with true; [reflexivity|].
  symmetry. apply forallb_forall. intros b Hb.
  rewrite Forall_forall in Hall. rewrite (Hall b Hb). apply shape_eqb_refl.
Qed.



Lemma kmc_kernel_estimator_run (timeseries : ndarray R) (bins : list nat)
    (kernel : kernel_fn) (bw : R) (powers : ndarray Z) (N D K : nat) :
  valid_input timeseries bins kernel bw powers N D K ->
  kmc_kernel_estimator timeseries bins kernel bw powers
  = Ok (kmc_of timeseries bins kernel bw powers N D K,
        hist_edges (tail_rows timeseries) bins).
Proof.
  intros [Hs Hw HN HD Hb Hbp Hp Hpw HK Hker].
  unfold kmc_kernel_estimator.
  rewrite (@kmc_hist_run _ _ timeseries bins powers N D K Hs Hp Hb).
  cbv zeta. cbn [bind fst snd].
  set (edges := hist_edges (tail_rows timeseries) bins).
  assert (Hlens : map (@length R) edges = map S bins) by apply map_length_hist_edges.
  assert (Hne : edges <> []).
  { intro E. apply (f_equal (@length _)) in E. unfold edges in E.
    rewrite length_hist_edges in E. simpl in E. lia. }
  rewrite kmc_kernel_run; [|assumption|now rewrite Hker, nrows_mesh_of].
  cbn [bind].
  fold (hist_of timeseries bins powers N D K).
  rewrite kmc_convolve_run with (bins := bins) (D := D) (K := K);
    [|assumption|reflexivity|].
  2:{ unfold kernel_field, idiv. cbn [shape]. rewrite length_map.
      apply length_hist_edges. }
  cbn [bind].
  rewrite np_stack_last_run with (s := map S bins).
  - reflexivity.
  - destruct K; [lia|]. simpl. discriminate.
  - apply Forall_forall. intros a Ha. apply in_map_iff in Ha as (p & <- & _).
    unfold conv_of, kernel_field, idiv. cbn [shape]. exact Hlens.
Qed.

End EstimatorRun.

(** ** The estimator on valid inputs *)

Lemma valid_ts1 (c : float) :
  valid_input Inputs.ts1 [2] (Inputs.const_kernel c) 1%float Inputs.pw1 4 1 2.
Proof.
  constructor; try reflexivity; try lia.
  - repeat constructor.
  - intro mesh. unfold Inputs.const_kernel. cbn [data]. apply repeat_length.
Qed.

Section EstimatorClaims.

Context {R : Type} `{Scalar R}.

Lemma shape_kmc_of (timeseries : ndarray R) (bins : list nat) (kernel : kernel_fn)
    (bw : R) (powers : ndarray Z) (N D K : nat) :
  shape (kmc_of timeseries bins kernel bw powers N D K) = map S bins ++ [K].
Proof. unfold kmc_of, stack_of. cbn [shape]. now rewrite length_map, length_seq. Qed.

(** C1, as the code has it.  On a valid input the estimator returns a
    result of shape (bins[0]+1, ..., bins[D-1]+1, K), the shape of the
    kernel field with the K channels (the columns of the powers matrix) as
    last axis, together with D edge sequences, sequence d of length
    bins[d] + 1. *)
Theorem kmc_result_shape (timeseries : ndarray R) (bins : list nat) (kernel : kernel_fn)
    (bw : R) (powers : ndarray Z) (N D K : nat) :
  valid_input timeseries bins kernel bw powers N D K ->
  exists out edges,
    kmc_kernel_estimator timeseries bins kernel bw powers = Ok (out, edges)
    /\ shape out = map S bins ++ [K]
    /\ length edges = D
    /\ forall d, d < D -> length (nth d edges []) = nth d bins 0 + 1.
Proof.
  intro V. eexists _, _.
  split; [now apply kmc_kernel_estimator_run with (N := N) (D := D) (K := K)|].
  destruct V as [_ _ _ _ Hb _ _ _ _ _].
  split; [apply shape_kmc_of|].
  split; [now rewrite length_hist_edges|].
  intros d Hd. apply nth_hist_edges_length. lia.
Qed.

(** C5, as the code has it.  The kernel is evaluated at the mesh of the bin
    edges: the mesh has the product of the bins[d] + 1 rows, of D
    coordinates each, and the kernel field has bins[d] + 1 entries along
    dimension d. *)
Theorem kmc_mesh_kernel_shape (timeseries : ndarray R) (bins : list nat)
    (kernel : kernel_fn) (bw : R) (powers : ndarray Z) (N D K : nat) :
  valid_input timeseries bins kernel bw powers N D K ->
  exists hist edges mesh kernel_,
    kmc_hist timeseries bins powers = Ok (hist, edges)
    /\ kmc_mesh edges = Ok mesh
    /\ shape mesh = [size (map S bins); D]
    /\ kmc_kernel edges kernel bw = Ok kernel_
    /\ shape kernel_ = map S bins
    /\ forall d, d < D -> nth d (shape kernel_) 0 = nth d bins 0 + 1.
Proof.
  intros [Hs Hw HN HD Hb Hbp Hp Hpw HK Hker].
  set (edges := hist_edges (tail_rows timeseries) bins).
  assert (Hlens : map (@length R) edges = map S bins) by apply map_length_hist_edges.
  assert (Hlen : length edges = D) by (unfold edges; now rewrite length_hist_edges).
  assert (Hne : edges <> []).
  { intro E. rewrite E in Hlen. simpl in Hlen. lia. }
  exists (hist_of timeseries bins powers N D K), edges, (mesh_of edges),
         (kernel_field edges kernel bw).
  split; [now apply kmc_hist_run|].
  split; [now apply cartesian_product_run|].
  split; [unfold mesh_of; cbn [shape]; now rewrite Hlens, Hlen|].
  split; [apply kmc_kernel_run; [assumption|now rewrite Hker, nrows_mesh_of]|].
  split; [exact Hlens|].
  intros d Hd. unfold kernel_field, idiv. cbn [shape]. rewrite Hlens.
  rewrite nth_map_in with (d' := 0) by lia. lia.
Qed.



End EstimatorClaims.

Lemma kmc_result_shape_witness :
  exists out edges,
    kmc_kernel_estimator Inputs.ts1 [2] Inputs.ones_kernel 1%float Inputs.pw1 = Ok (out, edges)
    /\ shape out = [3; 2]
    /\ length edges = 1
    /\ forall d, d < 1 -> length (nth d edges []) = nth d [2] 0 + 1.
Proof.
  exact (@kmc_result_shape float F64.float_scalar _ _ _ _ _ 4 1 2 (valid_ts1 1%float)).
Defined.

(** C1 fails as stated.  For four samples in one dimension, bins = [2] and
    the single channel powers = [[1]], the result has shape (3, 1), not
    (2, 1). *)
Lemma kmc_result_shape_counterexample :
  exists out edges,
    kmc_kernel_estimator Inputs.ts1 [2] Inputs.ones_kernel 1%float Inputs.pw11 = Ok (out, edges)
    /\ shape out = [3; 1]
    /\ shape out <> [2] ++ [1].
Proof. eexists _, _. split; [reflexivity|]. split; [reflexivity|discriminate]. Qed.

Lemma kmc_mesh_kernel_shape_witness :
  exists hist edges mesh kernel_,
    kmc_hist Inputs.ts1 [2] Inputs.pw1 = Ok (hist, edges)
    /\ kmc_mesh edges = Ok mesh
    /\ shape mesh = [3; 1]
    /\ kmc_kernel edges Inputs.ones_kernel 1%float = Ok kernel_
    /\ shape kernel_ = [3]
    /\ forall d, d < 1 -> nth d (shape kernel_) 0 = nth d [2] 0 + 1.
Proof.
  exact (@kmc_mesh_kernel_shape float F64.float_scalar _ _ _ _ _ 4 1 2 (valid_ts1 1%float)).
Defined.

(** C5 fails as stated.  With bins = [2] the mesh has the three rows 1, 2.5
    and 4 (the edges), not two, and the kernel field has shape (3,). *)
Lemma kmc_mesh_kernel_shape_counterexample :
  exists hist edges mesh kernel_,
    kmc_hist Inputs.ts1 [2] Inputs.pw11 = Ok (hist, edges)
    /\ kmc_mesh edges = Ok mesh
    /\ kmc_kernel edges Inputs.ones_kernel 1%float = Ok kernel_
    /\ nrows mesh <> size [2]
    /\ shape kernel_ <> [2].
Proof.
  eexists _, _, _, _.
  split; [reflexivity|]. split; [reflexivity|]. split; [reflexivity|].
  split; discriminate.
Qed.



(** ** Errors *)

Lemma only_Ok {A : Type} (P : exn -> Prop) (a : A) : only P (Ok a).
Proof. intros e E. discriminate. Qed.

Lemma only_Raise {A : Type} (P : exn -> Prop) (e : exn) : P e -> only P (@Raise A e).
Proof. intros HP e' E. now injection E as <-. Qed.

Lemma only_bind {A B : Type} (P : exn -> Prop) (m : res A) (k : A -> res B) :
  only P m -> (forall a, only P (k a)) -> only P (bind m k).
Proof.
  intros Hm Hk e E. destruct m as [a|e']; cbn [bind] in E.
  - now apply (Hk a).
  - injection E as <-. now apply Hm.
Qed.

Lemma only_weaken {A : Type} (P Q : exn -> Prop) (m : res A) :
  (forall e, P e -> Q e) -> only P m -> only Q m.
Proof. intros HPQ Hm e E. auto. Qed.

Lemma only_for_each {A B : Type} (P : exn -> Prop) (f : A -> res B) (l : list A) :
  (forall x, only P (f x)) -> only P (for_each f l).
Proof.
  intro Hf. induction l as [|x l IH]; simpl.
  - apply only_Ok.
  - apply only_bind; [apply Hf|]. intro y.
    apply only_bind; [apply IH|]. intro ys. apply only_Ok.
Qed.

Lemma only_fold {A B : Type} (P : exn -> Prop) (f : B -> A -> res B) (l : list A)
    (acc : res B) :
  only P acc -> (forall b x, only P (f b x)) ->
  only P (fold_left (fun acc x => b <- acc ;; f b x) l acc).
Proof.
  revert acc. induction l as [|x l IH]; intros acc Hacc Hf; simpl; [assumption|].
  apply IH; [|assumption]. apply only_bind; auto.
Qed.

Create HintDb errs.
#[local] Hint Resolve only_Ok only_Raise : errs.
#[local] Hint Unfold is_value_error library_error : errs.

Section ErrorFacts.

Context {R : Type} `{Scalar R}.

Lemma only_broadcast2 {A B C : Type} `{Default A} `{Default B}
    (f : A -> B -> C) (a : ndarray A) (b : ndarray B) :
  only is_value_error (broadcast2 f a b).
Proof. unfold broadcast2. destruct (bshape _ _); auto with errs. Qed.

Lemma only_np_prod_axis1 (x : ndarray R) : only is_value_error (np_prod_axis1 x).
Proof. unfold np_prod_axis1. destruct (shape x) as [|? [|? ?]]; auto with errs. Qed.

Lemma only_kmc_weights (timeseries : ndarray R) (powers : ndarray Z) :
  only is_value_error (kmc_weights timeseries powers).
Proof.
  unfold kmc_weights, np_power. apply only_bind.
  - apply only_broadcast2.
  - intro. apply only_np_prod_axis1.
Qed.

Lemma only_guard (P : exn -> Prop) (b : bool) (e : exn) : P e -> only P (guard b e).
Proof. intro HP. unfold guard. destruct b; auto with errs. Qed.

Lemma only_histogramdd (sample : ndarray R) (bins : list nat) (w : option (ndarray R)) :
  only library_error (histogramdd sample bins w).
Proof.
  assert (Hs : library_error ShapeMismatchError) by (right; now right).
  unfold histogramdd. apply only_bind; [now apply only_guard|].
  intros _. destruct w as [w|]; [|apply only_Ok].
  apply only_bind; [now apply only_guard|].
  intros _. apply only_Ok.
Qed.

Lemma only_reshape (a : ndarray R) (s : list nat) : only is_value_error (reshape a s).
Proof. unfold reshape. destruct (_ =? _); auto with errs. Qed.

Lemma only_reshape_rows (a : ndarray R) (la : nat) : only is_value_error (reshape_rows a la).
Proof. unfold reshape_rows. destruct (_ || _); auto with errs. Qed.

Lemma only_assign_last (arr : ndarray R) (i : nat) (a : ndarray R) :
  only is_value_error (assign_last arr i a).
Proof. unfold assign_last. destruct (_ && _); auto with errs. Qed.

Lemma only_cartesian_product (arrays : list (list R)) :
  only is_value_error (cartesian_product arrays).
Proof.
  unfold cartesian_product. apply only_bind.
  - apply (only_fold (P := is_value_error)
             (fun arr ia => assign_last arr (fst ia) (snd ia))).
    + apply only_Ok.
    + intros. apply only_assign_last.
  - intro. apply only_reshape_rows.
Qed.

Lemma only_kmc_kernel (edges : list (list R)) (kernel : kernel_fn) (bw : R) :
  only is_value_error (kmc_kernel edges kernel bw).
Proof.
  unfold kmc_kernel, kmc_mesh.
  apply only_bind; [apply only_cartesian_product|]. intro mesh.
  apply only_bind; [apply only_reshape|]. intro. apply only_Ok.
Qed.

Lemma only_convolve_same (in1 in2 : ndarray R) : only is_value_error (convolve_same in1 in2).
Proof. unfold convolve_same. destruct (_ =? _); auto with errs. Qed.

Lemma only_kmc_convolve (kernel_ hist : ndarray R) (powers : ndarray Z) :
  only library_error (kmc_convolve kernel_ hist powers).
Proof.
  unfold kmc_convolve, shape1. apply only_bind.
  - destruct (nth_error _ _); [apply only_Ok|].
    apply only_Raise. right. now left.
  - intro n. apply only_for_each. intro.
    apply only_weaken with (P := is_value_error);
      [now left|apply only_convolve_same].
Qed.

Lemma only_np_stack_last (l : list (ndarray R)) : only is_value_error (np_stack_last l).
Proof.
  unfold np_stack_last. destruct l; auto with errs.
  destruct (forallb _ _); auto with errs.
Qed.

Lemma value_is_library (e : exn) : is_value_error e -> library_error e.
Proof. now left. Qed.

(** The estimator raises nothing but the errors of the operations it calls. *)
Lemma only_kmc_kernel_estimator (timeseries : ndarray R) (bins : list nat)
    (kernel : kernel_fn) (bw : R) (powers : ndarray Z) :
  only library_error (kmc_kernel_estimator timeseries bins kernel bw powers).
Proof.
  unfold kmc_kernel_estimator, kmc_hist.
  apply only_bind.
  { apply only_bind.
    - apply only_weaken with (P := is_value_error);
        [apply value_is_library|apply only_kmc_weights].
    - intro. apply only_histogramdd. }
  intro he. apply only_bind.
  { apply only_weaken with (P := is_value_error);
      [apply value_is_library|apply only_kmc_kernel]. }
  intro kernel_. apply only_bind; [apply only_kmc_convolve|].
  intro kmc. apply only_bind.
  { apply only_weaken with (P := is_value_error);
      [apply value_is_library|apply only_np_stack_last]. }
  intro. apply only_Ok.
Qed.

Lemma bshape_mismatch (n D P Q : nat) :
  P <> D -> P <> 1 -> D <> 1 -> bshape [n; D; 1] [1; P; Q] = None.
Proof.
  intros H1 H2 H3. cbn -[Nat.eqb].
  repeat (match goal with
          | |- context [?a =? ?b] => destruct (Nat.eqb_spec a b)
          end; subst; cbn -[Nat.eqb]); congruence.
Qed.

(** Powers whose row count is neither D nor 1 do not broadcast against the
    increments of a series of D > 1 dimensions. *)
Lemma kmc_weights_mismatch (timeseries : ndarray R) (powers : ndarray Z) (N D P Q : nat) :
  shape timeseries = [N; D] -> shape powers = [P; Q] ->
  P <> D -> P <> 1 -> D <> 1 ->
  kmc_weights timeseries powers = Raise ValueError.
Proof.
  intros Hs Hp H1 H2 H3.
  unfold kmc_weights, np_power, broadcast2, expand_last, np_diff, nrows, ncols.
  rewrite Hs, Hp. cbn [shape data nth app length Nat.max].
  unfold pad_shape. cbn [length Nat.sub repeat app].
  now rewrite bshape_mismatch.
Qed.

End ErrorFacts.

Section ErrorClaims.

Context {R : Type} `{Scalar R}.

(** C4, as the code has it.  Nothing checks the sum of the kernel field.
    For a kernel whose field sums to zero on an otherwise valid input the
    estimator raises no error: line 55 divides every entry of the field by
    zero, and the convolutions of that field are returned. *)
Theorem kmc_zero_sum_kernel_returns (timeseries : ndarray R) (bins : list nat)
    (kernel : kernel_fn) (bw : R) (powers : ndarray Z) (N D K : nat) :
  valid_input timeseries bins kernel bw powers N D K ->
  sum (data (kernel (mesh_of (hist_edges (tail_rows timeseries) bins)) bw)) = zero ->
  exists out edges kernel_,
    kmc_kernel_estimator timeseries bins kernel bw powers = Ok (out, edges)
    /\ raises (kmc_kernel_estimator timeseries bins kernel bw powers) = false
    /\ kmc_kernel edges kernel bw = Ok kernel_
    /\ data kernel_ = map (fun x => div x zero) (data (kernel (mesh_of edges) bw)).
Proof.
  intros V Hz. pose proof V as [Hs Hw HN HD Hb Hbp Hp Hpw HK Hker].
  pose proof (kmc_kernel_estimator_run V) as Hrun.
  set (edges := hist_edges (tail_rows timeseries) bins) in *.
  assert (Hlen : length edges = D) by (unfold edges; now rewrite length_hist_edges).
  assert (Hne : edges <> []).
  { intro E. rewrite E in Hlen. simpl in Hlen. lia. }
  exists (kmc_of timeseries bins kernel bw powers N D K), edges,
         (kernel_field edges kernel bw).
  split; [exact Hrun|].
  split; [now rewrite Hrun|].
  split; [apply kmc_kernel_run; [assumption|now rewrite Hker, nrows_mesh_of]|].
  unfold kernel_field, idiv. cbn [data]. now rewrite Hz.
Qed.

(** C7, as the code has it.  The estimator validates nothing itself.  The
    only errors it raises are those of the numpy and scipy operations
    (ValueError, IndexError) and the dimensionality error of the histogram
    builder, so never InsufficientDataError, InvalidPowerError or
    DegenerateKernelError.  The powers matrix has
    one row per dimension: a row count that is neither D nor 1, for D > 1,
    fails with the broadcasting ValueError of [np.power] while the weights
    are computed, before the histogram is built.  Its entries are not
    inspected and its column count is the number of channels, so an input
    that is valid in its shapes is accepted whatever the sign of the
    exponents and whatever the number of columns. *)
Theorem kmc_no_validation (timeseries : ndarray R) (bins : list nat)
    (kernel : kernel_fn) (bw : R) (powers : ndarray Z) :
  let run := kmc_kernel_estimator timeseries bins kernel bw powers in
  run <> Raise InsufficientDataError
  /\ run <> Raise InvalidPowerError
  /\ run <> Raise DegenerateKernelError
  /\ (forall e, run = Raise e ->
        e = ValueError \/ e = IndexError \/ e = ShapeMismatchError)
  /\ (forall N D P Q,
        shape timeseries = [N; D] -> shape powers = [P; Q] ->
        P <> D -> P <> 1 -> D <> 1 ->
        kmc_weights timeseries powers = Raise ValueError /\ run = Raise ValueError)
  /\ (forall N D K,
        valid_input timeseries bins kernel bw powers N D K -> raises run = false).
Proof.
  intro run.
  assert (Honly : forall e, run = Raise e ->
                    e = ValueError \/ e = IndexError \/ e = ShapeMismatchError).
  { apply only_kmc_kernel_estimator. }
  split; [intro E; destruct (Honly _ E) as [|[|]]; discriminate|].
  split; [intro E; destruct (Honly _ E) as [|[|]]; discriminate|].
  split; [intro E; destruct (Honly _ E) as [|[|]]; discriminate|].
  split; [exact Honly|].
  split.
  - intros N D P Q Hs Hp H1 H2 H3.
    pose proof (kmc_weights_mismatch _ _ Hs Hp H1 H2 H3) as Hw.
    split; [exact Hw|].
    unfold run, kmc_kernel_estimator, kmc_hist. now rewrite Hw.
  - intros N D K V. unfold run. now rewrite (kmc_kernel_estimator_run V).
Qed.

End ErrorClaims.

Lemma kmc_zero_sum_kernel_returns_witness :
  exists out edges kernel_,
    kmc_kernel_estimator Inputs.ts1 [2] Inputs.zero_kernel 1%float Inputs.pw1 = Ok (out, edges)
    /\ raises (kmc_kernel_estimator Inputs.ts1 [2] Inputs.zero_kernel 1%float Inputs.pw1)
       = false
    /\ kmc_kernel edges Inputs.zero_kernel 1%float = Ok kernel_
    /\ forallb is_nan (data kernel_) = true.
Proof.
  destruct (@kmc_zero_sum_kernel_returns float F64.float_scalar _ _ _ _ _ 4 1 2
              (valid_ts1 0%float))
    as (out & edges & kernel_ & H1 & H2 & H3 & H4); [reflexivity|].
  exists out, edges, kernel_. repeat split; try assumption.
  rewrite H4. injection H1 as _ <-. reflexivity.
Defined.

(** C4 fails as stated.  With a kernel that is zero at every mesh point the
    estimator returns, and every entry of the result is NaN. *)
Lemma kmc_zero_kernel_counterexample :
  exists out edges,
    kmc_kernel_estimator Inputs.ts1 [2] Inputs.zero_kernel 1%float Inputs.pw11 = Ok (out, edges)
    /\ length (data out) = 3
    /\ forallb is_nan (data out) = true.
Proof. eexists _, _. repeat split; reflexivity. Qed.

Lemma valid_ts1_neg :
  valid_input Inputs.ts1 [2] Inputs.ones_kernel 1%float Inputs.pw_neg 4 1 1.
Proof.
  constructor; try reflexivity; try lia.
  - repeat constructor.
  - intro mesh. unfold Inputs.ones_kernel, Inputs.const_kernel. cbn [data].
    apply repeat_length.
Qed.

Lemma kmc_no_validation_witness :
  (kmc_weights Inputs.ts2 Inputs.pw_31 = Raise ValueError
   /\ kmc_kernel_estimator Inputs.ts2 [2; 1] Inputs.ones_kernel 1%float Inputs.pw_31
      = Raise ValueError)
  /\ raises (kmc_kernel_estimator Inputs.ts1 [2] Inputs.ones_kernel 1%float Inputs.pw_neg)
     = false.
Proof.
  split.
  - destruct (@kmc_no_validation float F64.float_scalar Inputs.ts2 [2; 1]
                Inputs.ones_kernel 1%float Inputs.pw_31) as (_ & _ & _ & _ & Hm & _).
    apply (Hm 3 2 3 1); try reflexivity; lia.
  - destruct (@kmc_no_validation float F64.float_scalar Inputs.ts1 [2]
                Inputs.ones_kernel 1%float Inputs.pw_neg) as (_ & _ & _ & _ & _ & Hv).
    exact (Hv 4 1 1 valid_ts1_neg).
Defined.

(** C7 fails as stated.  A negative exponent is accepted (the weights are
    the reciprocals of the increments), and so is a powers matrix with two
    columns for a series of one dimension. *)
Lemma kmc_validation_counterexample :
  raises (kmc_kernel_estimator Inputs.ts1 [2] Inputs.ones_kernel 1%float Inputs.pw_neg) = false
  /\ kmc_weights Inputs.ts1 Inputs.pw_neg = Ok (mk_nd [3; 1] [1; 0.5; 1]%float)
  /\ raises (kmc_kernel_estimator Inputs.ts1 [2] Inputs.ones_kernel 1%float Inputs.pw1) = false.
Proof. repeat split; reflexivity. Qed.

(** ** The arguments are left unchanged, by a kernel that does not return them *)

Section Frame.

Context {R : Type} `{Scalar R}.

#[local] Abbreviation M := (@M R).
#[local] Abbreviation heap := (@heap R).

Lemma hbind_Ok_inv {A B : Type} (m : M A) (k : A -> M B) (h h' : heap) (b : B) :
  hbind m k h = Ok (b, h') -> exists a h1, m h = Ok (a, h1) /\ k a h1 = Ok (b, h').
Proof.
  unfold hbind. destruct (m h) as [[a h1]|e]; [eauto|discriminate].
Qed.

Lemma keeps_ret {A : Type} (P : heap -> Prop) (a : A) : keeps P (ret a : M A).
Proof. intros h a' h' HP E. now injection E as _ <-. Qed.

Lemma keeps_bind {A B : Type} (P : heap -> Prop) (m : M A) (k : A -> M B) :
  keeps P m -> (forall a, keeps P (k a)) -> keeps P (hbind m k).
Proof.
  intros Hm Hk h b h' HP E.
  apply hbind_Ok_inv in E as (a & h1 & E1 & E2).
  eapply Hk; [|exact E2]. eapply Hm; eauto.
Qed.

Lemma keeps_lift {A : Type} (P : heap -> Prop) (m : res A) : keeps P (lift m : M A).
Proof.
  intros h a h' HP E. unfold lift in E. destruct m; [|discriminate].
  now injection E as _ <-.
Qed.

Lemma keeps_load_f (P : heap -> Prop) (l : loc) : keeps P (load_f l : M _).
Proof.
  intros h a h' HP E. unfold load_f in E.
  destruct (nth_error h l) as [[]|]; try discriminate. now injection E as _ <-.
Qed.

Lemma keeps_load_z (P : heap -> Prop) (l : loc) : keeps P (load_z l : M _).
Proof.
  intros h a h' HP E. unfold load_z in E.
  destruct (nth_error h l) as [[]|]; try discriminate. now injection E as _ <-.
Qed.

Lemma keeps_load_n (P : heap -> Prop) (l : loc) : keeps P (load_n l : M _).
Proof.
  intros h a h' HP E. unfold load_n in E.
  destruct (nth_error h l) as [[]|]; try discriminate. now injection E as _ <-.
Qed.

Lemma keeps_load_l (P : heap -> Prop) (l : loc) : keeps P (load_l l : M _).
Proof.
  intros h a h' HP E. unfold load_l in E.
  destruct (nth_error h l) as [[]|]; try discriminate. now injection E as _ <-.
Qed.

(** A new object is put after the objects that exist. *)
Lemma keeps_new (c : loc) (o o' : obj) : keeps (holds c o) (new o' : M _).
Proof.
  intros h l h' HP E. unfold new in E. injection E as _ <-.
  unfold holds in *. rewrite nth_error_app1; [assumption|].
  apply nth_error_Some. congruence.
Qed.

(** A write to one location does not touch another. *)
Lemma keeps_store (c l : loc) (o o' : obj) : c <> l -> keeps (holds c o) (store l o' : M _).
Proof.
  intros Hne h u h' HP E. unfold store in E.
  destruct (Nat.ltb_spec l (length h)) as [Hlt|]; [|discriminate].
  injection E as _ <-. unfold holds in *.
  change (match h with [] => [] | _ :: l0 => skipn l l0 end) with (skipn (S l) h).
  destruct (Nat.ltb_spec c l) as [Hc|Hc].
  - rewrite nth_error_app1 by (rewrite length_firstn; lia).
    rewrite nth_error_firstn. destruct (Nat.ltb_spec c l); [assumption|lia].
  - rewrite nth_error_app2 by (rewrite length_firstn; lia).
    rewrite length_firstn. replace (Nat.min l (length h)) with l by lia.
    destruct (c - l) as [|d] eqn:Ed; [lia|]. cbn [nth_error].
    rewrite nth_error_skipn. replace (S l + d) with c by lia. assumption.
Qed.

Lemma keeps_for_each_m {A B : Type} (P : heap -> Prop) (f : A -> M B) (l : list A) :
  (forall x, keeps P (f x)) -> keeps P (for_each_m f l).
Proof.
  intro Hf. induction l as [|x l IH]; simpl.
  - apply keeps_ret.
  - apply keeps_bind; [apply Hf|]. intro y.
    apply keeps_bind; [apply IH|]. intro ys. apply keeps_ret.
Qed.

Lemma keeps_kernel_view (P : heap -> Prop) (kout edges : loc) :
  keeps P (kernel_view kout edges : M _).
Proof.
  unfold kernel_view.
  apply keeps_bind; [apply keeps_load_f|]. intro.
  apply keeps_bind; [apply keeps_load_l|]. intro.
  apply keeps_lift.
Qed.

End Frame.

(** One step of the program: a read, a pure call, or an allocation *)
Ltac keeps_step :=
  apply keeps_bind;
  [ first [ apply keeps_load_f | apply keeps_load_z | apply keeps_load_n
          | apply keeps_load_l | apply keeps_lift | apply keeps_kernel_view
          | apply keeps_new ]
  | intro ].

Section FrameEstimator.

Context {R : Type} `{Scalar R}.

(** Lines 45-53 read and allocate. *)
Lemma keeps_kmc_heap_front (c : loc) (o : obj) (timeseries bins powers : loc) :
  keeps (holds c o) (kmc_heap_front timeseries bins powers).
Proof. unfold kmc_heap_front. do 18 keeps_step. apply keeps_ret. Qed.

(** The only write of the program, line 55, goes to the array the kernel
    returned. *)
Lemma keeps_kmc_heap_normalize (c : loc) (o : obj) (kout edges : loc) :
  c <> kout -> keeps (holds c o) (kmc_heap_normalize kout edges).
Proof.
  intro Hne. unfold kmc_heap_normalize. do 2 keeps_step. now apply keeps_store.
Qed.

(** Lines 57-62 read and allocate. *)
Lemma keeps_kmc_heap_back (c : loc) (o : obj) (hist edges kout powers : loc) :
  keeps (holds c o) (kmc_heap_back hist edges kout powers).
Proof.
  unfold kmc_heap_back. do 2 keeps_step.
  apply keeps_bind.
  { apply keeps_for_each_m. intro p. do 3 keeps_step. apply keeps_new. }
  intro kmc. apply keeps_bind.
  { apply keeps_for_each_m. intro. apply keeps_load_f. }
  intro. do 2 keeps_step. apply keeps_ret.
Qed.

(** An object that the kernel spares is the same after the call. *)
Lemma kmc_keeps_spared (h h' : heap) (timeseries bins powers : loc)
    (kernel : kernel_call) (bw : R) (result : loc * loc) (l : loc) (o : obj) :
  spares kernel bw l ->
  nth_error h l = Some o ->
  kmc_kernel_estimator_heap timeseries bins kernel bw powers h = Ok (result, h') ->
  nth_error h' l = Some o.
Proof.
  intros Hsp Hl Hrun. unfold kmc_kernel_estimator_heap in Hrun.
  apply hbind_Ok_inv in Hrun as (front & h1 & Hfront & Hrun).
  apply (keeps_kmc_heap_front (c := l) (o := o)) in Hfront; [|exact Hl].
  cbv zeta in Hrun.
  apply hbind_Ok_inv in Hrun as (kout & h2 & Hcall & Hrun).
  destruct (Hsp _ _ _ _ _ Hfront Hcall) as (Hl2 & Hne).
  apply hbind_Ok_inv in Hrun as (u & h3 & Hnorm & Hrun).
  apply (@keeps_kmc_heap_normalize l o kout (snd (fst front))) in Hnorm;
    [|congruence|exact Hl2].
  eapply keeps_kmc_heap_back; [exact Hnorm|exact Hrun].
Qed.

(** A kernel that allocates its array spares every object. *)
Lemma spares_allocating (kernel : kernel_fn) (bw : R) (l : loc) :
  spares (allocating kernel) bw l.
Proof.
  intros mesh h c h' o Hl E. unfold allocating in E.
  apply hbind_Ok_inv in E as (m & h1 & E1 & E2).
  unfold load_f in E1. destruct (nth_error h mesh) as [[]|]; try discriminate.
  injection E1 as <- <-. unfold new in E2. injection E2 as <- <-.
  assert (l < length h) by (apply nth_error_Some; congruence).
  split; [|lia]. now rewrite nth_error_app1.
Qed.

(** C10, as the code has it.  When the estimator returns, the arrays passed
    as [timeseries], [bins] and [powers] hold the values they held before,
    provided the kernel spares them: it does not write them, and the array
    it returns is none of them.  The increments, weights, histogram, edges,
    mesh and result are new objects; the kernel field is not: line 55
    divides in place the array the kernel returned.  Every other object
    that the kernel spares is kept as well. *)
Theorem kmc_leaves_arguments_unchanged (h h' : heap) (timeseries bins powers : loc)
    (kernel : kernel_call) (bw : R) (ts : ndarray R) (b : list nat) (pw : ndarray Z)
    (result : loc * loc) :
  nth_error h timeseries = Some (ArrF ts) ->
  nth_error h bins = Some (ArrN b) ->
  nth_error h powers = Some (ArrZ pw) ->
  spares kernel bw timeseries -> spares kernel bw bins -> spares kernel bw powers ->
  kmc_kernel_estimator_heap timeseries bins kernel bw powers h = Ok (result, h') ->
  nth_error h' timeseries = Some (ArrF ts)
  /\ nth_error h' bins = Some (ArrN b)
  /\ nth_error h' powers = Some (ArrZ pw)
  /\ forall l o, spares kernel bw l -> nth_error h l = Some o -> nth_error h' l = Some o.
Proof.
  intros Hts Hb Hpw Sts Sb Spw Hrun.
  assert (Hall : forall l o, spares kernel bw l -> nth_error h l = Some o ->
                             nth_error h' l = Some o).
  { intros l o Hsp Hl. eapply kmc_keeps_spared; eassumption. }
  auto.
Qed.

End FrameEstimator.

Lemma kmc_leaves_arguments_unchanged_witness :
  exists result h',
    kmc_kernel_estimator_heap 0 1 (allocating Inputs.ones_kernel) 1%float 2 Inputs.heap1
    = Ok (result, h')
    /\ nth_error h' 0 = Some (ArrF Inputs.ts1)
    /\ nth_error h' 1 = Some (ArrN [2])
    /\ nth_error h' 2 = Some (ArrZ Inputs.pw1).
Proof.
  let v := eval vm_compute in
             (kmc_kernel_estimator_heap 0 1 (allocating Inputs.ones_kernel) 1%float 2
                Inputs.heap1) in
  match v with
  | Ok (?r, ?h') =>
      exists r, h';
      assert (Hrun : kmc_kernel_estimator_heap 0 1 (allocating Inputs.ones_kernel) 1%float 2
                       Inputs.heap1 = Ok (r, h')) by (vm_compute; reflexivity)
  end.
  destruct (@kmc_leaves_arguments_unchanged float F64.float_scalar Inputs.heap1 _ 0 1 2 _ _
              Inputs.ts1 [2] Inputs.pw1 _ eq_refl eq_refl eq_refl
              (spares_allocating _ _ _) (spares_allocating _ _ _) (spares_allocating _ _ _)
              Hrun)
    as (H1 & H2 & H3 & _).
  repeat split; assumption.
Defined.

(** C10 fails as stated.  A kernel that returns the array of the series
    itself, which for four samples and bins = [3] has one entry per mesh
    point: the estimator returns, and the series 0, 1, 3, 4 has been
    divided by 8, the sum of its entries. *)
Lemma kmc_argument_overwritten_counterexample :
  exists result h',
    kmc_kernel_estimator_heap 0 1 (cached 0) 1%float 2 Inputs.heap_bins3 = Ok (result, h')
    /\ nth_error Inputs.heap_bins3 0 = Some (ArrF Inputs.ts1)
    /\ nth_error h' 0 = Some (ArrF (mk_nd [4; 1] [0; 0.125; 0.375; 0.5]%float))
    /\ nth_error h' 0 <> Some (ArrF Inputs.ts1).
Proof.
  let v := eval vm_compute in
             (kmc_kernel_estimator_heap 0 1 (cached 0) 1%float 2 Inputs.heap_bins3) in
  match v with
  | Ok (?r, ?h') => exists r, h'
  end.
  split; [vm_compute; reflexivity|].
  split; [reflexivity|].
  split; [reflexivity|].
  apply observe_neq with
    (f := fun o => match o with
                   | Some (ArrF a) => PrimFloat.eqb (get (data a) 1) 0.125%float
                   | _ => false
                   end); reflexivity.
Qed.

(** ** The heap program computes the estimator *)

Lemma nth_error_snoc {A : Type} (l : list A) (x : A) :
  nth_error (l ++ [x]) (length l) = Some x.
Proof. rewrite nth_error_app2 by lia. now rewrite Nat.sub_diag. Qed.

Lemma for_each_length {A B : Type} (f : A -> res B) (l : list A) (ys : list B) :
  for_each f l = Ok ys -> length ys = length l.
Proof.
  revert ys. induction l as [|x l IH]; intros ys E; simpl in E.
  - now injection E as <-.
  - destruct (f x); cbn [bind] in E; [|discriminate].
    destruct (for_each f l) eqn:El; cbn [bind] in E; [|discriminate].
    injection E as <-. simpl. f_equal. now apply IH.
Qed.

Lemma bind_Ok_inv {A B : Type} (m : res A) (k : A -> res B) (b : B) :
  bind m k = Ok b -> exists a, m = Ok a /\ k a = Ok b.
Proof. destruct m as [a|e]; cbn [bind]; [eauto|discriminate]. Qed.

Section HeapRun.

Context {R : Type} `{Scalar R}.

#[local] Abbreviation M := (@M R).

Lemma hbind_assoc {A B C : Type} (m : M A) (f : A -> M B) (g : B -> M C) (h : heap) :
  hbind (hbind m f) g h = hbind m (fun a => hbind (f a) g) h.
Proof. unfold hbind. now destruct (m h) as [[a h1]|e]. Qed.

Lemma step_ret {A B : Type} (a : A) (k : A -> M B) (h : heap) :
  hbind (ret a) k h = k a h.
Proof. reflexivity. Qed.

Lemma step_load_f {B : Type} (l : loc) (a : ndarray R) (k : ndarray R -> M B) (h : heap) :
  nth_error h l = Some (ArrF a) -> hbind (load_f l) k h = k a h.
Proof. intro E. unfold hbind, load_f. now rewrite E. Qed.

Lemma step_load_z {B : Type} (l : loc) (a : ndarray Z) (k : ndarray Z -> M B) (h : heap) :
  nth_error h l = Some (ArrZ a) -> hbind (load_z l) k h = k a h.
Proof. intro E. unfold hbind, load_z. now rewrite E. Qed.

Lemma step_load_n {B : Type} (l : loc) (b : list nat) (k : list nat -> M B) (h : heap) :
  nth_error h l = Some (ArrN b) -> hbind (load_n l) k h = k b h.
Proof. intro E. unfold hbind, load_n. now rewrite E. Qed.

Lemma step_load_l {B : Type} (l : loc) (e : list (list R)) (k : list (list R) -> M B)
    (h : heap) :
  nth_error h l = Some (ListF e) -> hbind (load_l l) k h = k e h.
Proof. intro E. unfold hbind, load_l. now rewrite E. Qed.

Lemma step_new {B : Type} (o : obj) (k : loc -> M B) (h : heap) :
  hbind (new o) k h = k (length h) (h ++ [o]).
Proof. reflexivity. Qed.

Lemma step_lift {A B : Type} (m : res A) (a : A) (k : A -> M B) (h : heap) :
  m = Ok a -> hbind (lift m) k h = k a h.
Proof. intros ->. reflexivity. Qed.

(** Overwriting the object allocated last *)
Lemma step_store_last {B : Type} (o o' : obj) (k : unit -> M B) (h : heap) :
  hbind (store (length h) o') k (h ++ [o]) = k tt (h ++ [o']).
Proof.
  unfold hbind, store. rewrite length_app. cbn [length].
  destruct (Nat.ltb_spec (length h) (length h + 1)); [|lia].
  rewrite firstn_app, Nat.sub_diag, firstn_O, app_nil_r, firstn_all.
  rewrite skipn_app, skipn_all2 by lia.
  replace (S (length h) - length h) with 1 by lia. reflexivity.
Qed.

Lemma step_kernel_view {B : Type} (kout edges : loc) (k : ndarray R) (e : list (list R))
    (view : ndarray R) (c : ndarray R -> M B) (h : heap) :
  nth_error h kout = Some (ArrF k) -> nth_error h edges = Some (ListF e) ->
  reshape k (map (@length R) e) = Ok view ->
  hbind (kernel_view kout edges) c h = c view h.
Proof.
  intros Hk He Hv. unfold kernel_view, hbind, load_f, load_l, lift.
  now rewrite Hk, He, Hv.
Qed.

(** The loop of lines 59-60 allocates the convolutions one after the other. *)
Lemma for_each_m_convolve (kout edges hist : loc) (k : ndarray R) (e : list (list R))
    (view h0 : ndarray R) (ps : list nat) :
  reshape k (map (@length R) e) = Ok view ->
  forall (kmc : list (ndarray R)) (h : heap),
    nth_error h kout = Some (ArrF k) ->
    nth_error h edges = Some (ListF e) ->
    nth_error h hist = Some (ArrF h0) ->
    for_each (fun p => convolve_same view (channel h0 p)) ps = Ok kmc ->
    for_each_m (fun p =>
                  view <~ kernel_view kout edges ;;
                  h <~ load_f hist ;;
                  c <~ lift (convolve_same view (channel h p)) ;;
                  new (ArrF c)) ps h
    = Ok (seq (length h) (length ps), h ++ map ArrF kmc).
Proof.
  intro Hv. induction ps as [|p ps IH]; intros kmc h Hk He Hh Hrun.
  - simpl in Hrun. injection Hrun as <-. simpl. now rewrite app_nil_r.
  - simpl in Hrun.
    apply bind_Ok_inv in Hrun as (c & Hc & Hrun).
    apply bind_Ok_inv in Hrun as (cs & Hcs & Hrun). injection Hrun as <-.
    cbn [for_each_m length seq map].
    assert (Hlt : forall l o, nth_error h l = Some o -> nth_error (h ++ [ArrF c]) l = Some o).
    { intros l o E. rewrite nth_error_app1; [assumption|].
      apply nth_error_Some. congruence. }
    unfold hbind at 1.
    erewrite step_kernel_view by eassumption.
    erewrite step_load_f by eassumption.
    erewrite step_lift by eassumption.
    unfold new at 1.
    unfold hbind at 1.
    rewrite (IH cs (h ++ [ArrF c])); auto.
    unfold ret. rewrite length_app. cbn [length].
    rewrite Nat.add_1_r, <- app_assoc. reflexivity.
Qed.

(** Reading back the arrays of a block of the heap *)
Lemma for_each_m_load (l : list (ndarray R)) :
  forall (h t : heap),
    for_each_m load_f (seq (length h) (length l)) (h ++ map ArrF l ++ t)
    = Ok (l, h ++ map ArrF l ++ t).
Proof.
  induction l as [|a l IH]; intros h t; [reflexivity|].
  cbn [for_each_m length seq map app].
  rewrite step_load_f with (a := a).
  2:{ rewrite nth_error_app2 by lia. now rewrite Nat.sub_diag. }
  unfold hbind at 1.
  replace (h ++ ArrF a :: map ArrF l ++ t) with ((h ++ [ArrF a]) ++ map ArrF l ++ t)
    by now rewrite <- app_assoc.
  replace (S (length h)) with (length (h ++ [ArrF a]))
    by (rewrite length_app; simpl; lia).
  now rewrite IH.
Qed.

End HeapRun.

(** Finding an object in a heap that has grown by allocations *)
Ltac lookup :=
  solve [ repeat first
            [ eassumption
            | apply nth_error_snoc
            | rewrite nth_error_app1 by (rewrite ?length_app; cbn [length]; lia) ] ].

Ltac heap_step :=
  first [ rewrite step_new
        | erewrite step_load_f by lookup
        | erewrite step_load_z by lookup
        | erewrite step_load_n by lookup
        | erewrite step_load_l by lookup
        | erewrite step_lift by eassumption ];
  cbv beta.

Section HeapAgreement.

Context {R : Type} `{Scalar R}.

(** X1.  The program over the heap computes what the estimator computes,
    for a kernel that builds its array at each call: when the estimator
    returns on the values of its arguments, the heap program returns as
    well, and the locations it returns hold the same result and the same
    edges. *)
Theorem kmc_kernel_estimator_heap_run (h : heap) (timeseries bins powers : loc)
    (kernel : kernel_fn) (bw : R) (ts : ndarray R) (b : list nat) (pw : ndarray Z)
    (out : ndarray R) (edges : list (list R)) :
  nth_error h timeseries = Some (ArrF ts) ->
  nth_error h bins = Some (ArrN b) ->
  nth_error h powers = Some (ArrZ pw) ->
  kmc_kernel_estimator ts b kernel bw pw = Ok (out, edges) ->
  exists result edges_l h',
    kmc_kernel_estimator_heap timeseries bins (allocating kernel) bw powers h
    = Ok ((result, edges_l), h')
    /\ nth_error h' result = Some (ArrF out)
    /\ nth_error h' edges_l = Some (ListF edges).
Proof.
  intros Hts Hb Hpw Hrun.
  assert (Lts : timeseries < length h) by (apply nth_error_Some; congruence).
  assert (Lb : bins < length h) by (apply nth_error_Some; congruence).
  assert (Lpw : powers < length h) by (apply nth_error_Some; congruence).
  unfold kmc_kernel_estimator, kmc_hist, kmc_weights, kmc_kernel, kmc_mesh, kmc_convolve
    in Hrun.
  apply bind_Ok_inv in Hrun as (he & Hhe & Hrun).
  apply bind_Ok_inv in Hhe as (w & Hw & Hhe).
  apply bind_Ok_inv in Hw as (x & Hx & Hw).
  apply bind_Ok_inv in Hrun as (kernel_ & Hker & Hrun).
  apply bind_Ok_inv in Hker as (m & Hm & Hker).
  apply bind_Ok_inv in Hker as (view & Hview & Hker). injection Hker as <-.
  apply bind_Ok_inv in Hrun as (kmc & Hkmc & Hrun).
  apply bind_Ok_inv in Hkmc as (n & Hn & Hkmc).
  apply bind_Ok_inv in Hrun as (stacked & Hstack & Hrun). injection Hrun as <- <-.
  unfold kmc_kernel_estimator_heap, kmc_heap_front.
  do 18 (rewrite hbind_assoc; heap_step).
  rewrite step_ret. cbv beta zeta. cbn [fst snd].
  (* line 54: the kernel allocates its array *)
  unfold allocating. rewrite hbind_assoc. heap_step. heap_step.
  (* line 55 *)
  unfold kmc_heap_normalize. rewrite hbind_assoc.
  erewrite step_kernel_view; [|lookup|lookup|eassumption]. cbv beta.
  rewrite hbind_assoc. heap_step.
  rewrite step_store_last. cbv beta.
  (* lines 57-62 *)
  unfold kmc_heap_back.
  heap_step. heap_step.
  set (k' := mk_nd (shape (kernel m bw)) (data (idiv view (sum (data view))))).
  assert (Hview' : reshape k' (map (@length R) (snd he)) = Ok (idiv view (sum (data view)))).
  { pose proof Hview as Hv. unfold reshape in Hv.
    destruct (Nat.eqb_spec (length (data (kernel m bw))) (size (map (@length R) (snd he))))
      as [Hlen|]; [|discriminate].
    injection Hv as Hv.
    unfold reshape, k'. cbn [data]. unfold idiv at 1. cbn [data].
    rewrite length_map. rewrite <- Hv at 1. cbn [data].
    rewrite Hlen, Nat.eqb_refl. rewrite <- Hv. reflexivity. }
  unfold hbind at 1.
  erewrite for_each_m_convolve; [|exact Hview'|lookup|lookup|lookup|exact Hkmc].
  unfold hbind at 1.
  rewrite <- (for_each_length _ _ Hkmc).
  match goal with
  | |- context [for_each_m load_f (seq (length ?X) (length kmc)) (?X ++ map ArrF kmc)] =>
      rewrite <- (app_nil_r (map ArrF kmc)), (for_each_m_load kmc X [])
  end.
  heap_step. heap_step.
  unfold ret. eexists _, _, _. split; [reflexivity|].
  split; [apply nth_error_snoc|].
  rewrite app_nil_r.
  rewrite nth_error_app1 by (rewrite ?length_app; cbn [length]; lia).
  rewrite nth_error_app1 by (rewrite ?length_app; cbn [length]; lia).
  lookup.
Qed.

End HeapAgreement.

Lemma kmc_kernel_estimator_heap_run_witness :
  exists out edges result edges_l h',
    kmc_kernel_estimator Inputs.ts1 [2] Inputs.ones_kernel 1%float Inputs.pw1 = Ok (out, edges)
    /\ kmc_kernel_estimator_heap 0 1 (allocating Inputs.ones_kernel) 1%float 2 Inputs.heap1
       = Ok ((result, edges_l), h')
    /\ nth_error h' result = Some (ArrF out)
    /\ nth_error h' edges_l = Some (ListF edges).
Proof.
  let v := eval vm_compute in
             (kmc_kernel_estimator Inputs.ts1 [2] Inputs.ones_kernel 1%float Inputs.pw1) in
  match v with
  | Ok (?out, ?edges) =>
      exists out, edges;
      assert (Hrun : kmc_kernel_estimator Inputs.ts1 [2] Inputs.ones_kernel 1%float Inputs.pw1
                     = Ok (out, edges)) by (vm_compute; reflexivity)
  end.
  destruct (@kmc_kernel_estimator_heap_run float F64.float_scalar Inputs.heap1 0 1 2 _ _
              Inputs.ts1 [2] Inputs.pw1 _ _ eq_refl eq_refl eq_refl Hrun)
    as (result & edges_l & h' & H1 & H2 & H3).
  exists result, edges_l, h'. repeat split; assumption.
Defined.

(** * Further properties of the estimator *)

(** ** Broadcasting of the powers (line 46) *)

Lemma bshape_rows (n D P K : nat) :
  P = D \/ P = 1 \/ D = 1 ->
  bshape [n; D; 1] [1; P; K] = Some [n; if D =? 1 then P else D; K].
Proof.
  intro Hc. cbn -[Nat.eqb].
  repeat (match goal with
          | |- context [?a =? ?b] => destruct (Nat.eqb_spec a b)
          end; subst; cbn -[Nat.eqb]); try congruence; lia.
Qed.

Section WeightsBroadcast.

Context {R : Type} `{Scalar R}.

(** The weights for a powers matrix of [P] rows that broadcast against the
    [D] dimensions: the product runs over the common length of the two axes,
    and an axis of length 1 is read at index 0 throughout. *)
Lemma kmc_weights_broadcast_run (timeseries : ndarray R) (powers : ndarray Z)
    (N D P K : nat) :
  shape timeseries = [N; D] -> shape powers = [P; K] ->
  P = D \/ P = 1 \/ D = 1 ->
  kmc_weights timeseries powers
  = Ok (mk_nd [N - 1; K]
          (build ((N - 1) * K)
             (fun p => prod (build (if D =? 1 then P else D)
                               (fun a => pow (get2 (np_diff timeseries) (p / K)
                                                   (if D =? 1 then 0 else a))
                                             (get2 powers (if P =? 1 then 0 else a)
                                                   (p mod K))))))).
Proof.
  intros Hs Hp Hc.
  unfold kmc_weights, np_power, broadcast2, expand_last.
  assert (Hsg : shape (np_diff timeseries) = [N - 1; D]).
  { unfold np_diff, nrows, ncols. now rewrite Hs. }
  cbn [shape data]. rewrite Hsg, Hp. cbn [app length Nat.max].
  unfold pad_shape. cbn [length Nat.sub repeat app].
  rewrite bshape_rows by assumption. cbn [bind].
  set (A := if D =? 1 then P else D).
  unfold np_prod_axis1. cbn [shape data].
  f_equal. f_equal.
  replace (size [K]) with K by (simpl; lia).
  apply build_ext. intros p Hp'.
  assert (HK : 0 < K) by nia.
  assert (Hi : p / K < N - 1) by (apply Nat.Div0.div_lt_upper_bound; lia).
  assert (Hk : p mod K < K) by (apply Nat.mod_upper_bound; lia).
  f_equal. apply build_ext. intros a Ha.
  rewrite get_build.
  2:{ rewrite !size_cons. simpl size. nia. }
  set (i := p / K) in *. set (k := p mod K) in *.
  assert (Eidx : unravel [N - 1; A; K] ((i * A + a) * K + k) = [i; a; k]).
  { rewrite <- (@unravel_ravel [N - 1; A; K] [i; a; k]).
    - f_equal. simpl. nia.
    - repeat constructor; assumption. }
  rewrite Eidx. unfold bget, pad_shape. cbn [shape data length Nat.sub repeat app].
  rewrite Hp. cbn [length Nat.sub repeat app].
  f_equal.
  - unfold get2, ncols. rewrite Hsg. cbn [nth].
    f_equal. cbn [clip ravel size fold_right].
    destruct (N - 1 =? 1) eqn:E1; destruct (D =? 1) eqn:E2;
      try apply Nat.eqb_eq in E1; try apply Nat.eqb_eq in E2;
      change (1 =? 1) with true; cbn iota; nia.
  - unfold get2, ncols. rewrite Hp. cbn [nth].
    f_equal. cbn [clip ravel size fold_right].
    change (1 =? 1) with true. cbn iota.
    destruct (P =? 1) eqn:E1; destruct (K =? 1) eqn:E2;
      try apply Nat.eqb_eq in E1; try apply Nat.eqb_eq in E2; nia.
Qed.

End WeightsBroadcast.

Section WeightsBroadcastClaim.

Context {R : Type} `{Scalar R}.

(** X2.  The powers matrix is broadcast against the increments, not checked
    against them.  For a series of D dimensions and a 2-D powers array of P
    rows and K columns, the weights are computed exactly when P = D, P = 1
    or D = 1, and line 46 raises numpy's ValueError otherwise.  When they
    are computed they have shape (N-1, K); a single row of powers is applied
    to every dimension, and for a series of one dimension the exponents of
    one column are all applied to that dimension. *)
Theorem kmc_weights_broadcast (timeseries : ndarray R) (powers : ndarray Z)
    (N D P K : nat) :
  shape timeseries = [N; D] -> shape powers = [P; K] ->
  raises (kmc_weights timeseries powers) = negb ((P =? D) || (P =? 1) || (D =? 1))
  /\ (P = D \/ P = 1 \/ D = 1 ->
      exists weights,
        kmc_weights timeseries powers = Ok weights
        /\ shape weights = [N - 1; K]
        /\ forall i k, i < N - 1 -> k < K ->
             get2 weights i k
             = prod (build (if D =? 1 then P else D)
                       (fun a => pow (get2 (np_diff timeseries) i (if D =? 1 then 0 else a))
                                     (get2 powers (if P =? 1 then 0 else a) k)))).
Proof.
  intros Hs Hp. split.
  - destruct (Nat.eqb_spec P D) as [E1|E1];
      [|destruct (Nat.eqb_spec P 1) as [E2|E2];
        [|destruct (Nat.eqb_spec D 1) as [E3|E3]]].
    + now rewrite (kmc_weights_broadcast_run _ _ Hs Hp (or_introl E1)).
    + now rewrite (kmc_weights_broadcast_run _ _ Hs Hp (or_intror (or_introl E2))).
    + now rewrite (kmc_weights_broadcast_run _ _ Hs Hp (or_intror (or_intror E3))).
    + now rewrite (kmc_weights_mismatch _ _ Hs Hp E1 E2 E3).
  - intro Hc. eexists. split; [exact (kmc_weights_broadcast_run _ _ Hs Hp Hc)|].
    split; [reflexivity|].
    intros i k Hi Hk. unfold get2 at 1, ncols. cbn [shape data nth].
    rewrite get_build by nia.
    now rewrite div_mul_add, mod_mul_add.
Qed.

(** X3.  A series of fewer than two samples is not rejected by the
    estimator itself: there is no increment, the weights are an empty array
    of shape (0, K), and an empty array of shape (0, D) is what is handed to
    the histogram builder. *)
Theorem kmc_weights_no_increment (timeseries : ndarray R) (powers : ndarray Z)
    (N D K : nat) :
  shape timeseries = [N; D] -> wf timeseries -> N <= 1 -> shape powers = [D; K] ->
  np_diff timeseries = mk_nd [0; D] []
  /\ kmc_weights timeseries powers = Ok (mk_nd [0; K] [])
  /\ tail_rows timeseries = mk_nd [0; D] [].
Proof.
  intros Hs Hw HN Hp.
  assert (Hn : N - 1 = 0) by lia.
  assert (Hd : skipn D (data timeseries) = []).
  { apply skipn_all2. unfold wf in Hw. rewrite Hw, Hs. simpl. nia. }
  split; [|split].
  - unfold np_diff, nrows, ncols. rewrite Hs. cbn [nth]. now rewrite Hn, Hd.
  - rewrite (kmc_weights_run _ _ Hs Hp). unfold weights_of. now rewrite Hn.
  - unfold tail_rows, nrows, ncols. rewrite Hs. cbn [nth]. now rewrite Hn, Hd.
Qed.

End WeightsBroadcastClaim.

Lemma kmc_weights_broadcast_witness :
  raises (kmc_weights Inputs.ts2 (mk_nd [1; 2] [1; 2]%Z)) = false
  /\ exists weights,
       kmc_weights Inputs.ts2 (mk_nd [1; 2] [1; 2]%Z) = Ok weights
       /\ shape weights = [2; 2]
       /\ get2 weights 0 1 = 4%float.
Proof.
  destruct (@kmc_weights_broadcast float F64.float_scalar Inputs.ts2
              (mk_nd [1; 2] [1; 2]%Z) 3 2 1 2 eq_refl eq_refl) as (Hr & Hw).
  split; [exact Hr|].
  destruct (Hw (or_intror (or_introl eq_refl))) as (w & H1 & H2 & H3).
  exists w. split; [exact H1|]. split; [exact H2|].
  rewrite H3 by lia. reflexivity.
Defined.

Lemma kmc_weights_no_increment_witness :
  np_diff (mk_nd [1; 2] [5; 7]%float) = mk_nd [0; 2] []
  /\ kmc_weights (mk_nd [1; 2] [5; 7]%float) Inputs.pw2 = Ok (mk_nd [0; 2] [])
  /\ tail_rows (mk_nd [1; 2] [5; 7]%float) = mk_nd [0; 2] [].
Proof.
  apply (@kmc_weights_no_increment float F64.float_scalar
           (mk_nd [1; 2] [5; 7]%float) Inputs.pw2 1 2 2); reflexivity.
Defined.

(** ** Degenerate meshes (lines 36-42) *)

Lemma size_zero (s : list nat) : In 0 s -> size s = 0.
Proof.
  induction s as [|n s IH]; intro Hin; [destruct Hin|].
  destruct Hin as [E|Hin]; simpl.
  - now subst.
  - fold (size s). rewrite IH by assumption. lia.
Qed.

Section CartesianEdge.

Context {R : Type} `{Scalar R}.

(** X4.  [cartesian_product] of no sequence at all raises ValueError: the
    array built at line 39 has no entry and [reshape(-1, 0)] cannot infer
    the number of rows.  As soon as one of the sequences is empty, the mesh
    has no row: shape (0, D). *)
Theorem cartesian_product_degenerate (arrays : list (list R)) :
  (arrays = [] -> cartesian_product arrays = Raise ValueError)
  /\ (In [] arrays ->
      cartesian_product arrays = Ok (mk_nd [0; length arrays] [])).
Proof.
  split.
  - intros ->. reflexivity.
  - intro Hin.
    assert (Hne : arrays <> []) by (intros ->; destruct Hin).
    rewrite cartesian_product_run by assumption.
    unfold mesh_of.
    assert (Hz : size (map (@length R) arrays) = 0).
    { apply size_zero. change 0 with (length (@nil R)). now apply in_map. }
    now rewrite Hz.
Qed.

End CartesianEdge.

Lemma cartesian_product_degenerate_witness :
  cartesian_product [[1; 2]; []]%float = Ok (mk_nd [0; 2] []).
Proof.
  apply (@cartesian_product_degenerate float F64.float_scalar [[1; 2]; []]%float).
  right. now left.
Defined.

(** ** Late and missing checks in the estimator *)

Lemma bshape_vector (n D K : nat) : bshape [n; D; 1] [1; 1; K] = Some [n; D; K].
Proof.
  cbn -[Nat.eqb].
  repeat (match goal with
          | |- context [?a =? ?b] => destruct (Nat.eqb_spec a b)
          end; subst; cbn -[Nat.eqb]); try congruence; lia.
Qed.

Section LateChecks.

Context {R : Type} `{Scalar R}.

(** With a 1-D array of [K] powers the weights are computed all the same,
    as an array of shape (N-1, K). *)
Lemma kmc_weights_vector (timeseries : ndarray R) (powers : ndarray Z) (N D K : nat) :
  shape timeseries = [N; D] -> shape powers = [K] ->
  exists weights, kmc_weights timeseries powers = Ok weights /\ shape weights = [N - 1; K].
Proof.
  intros Hs Hp.
  unfold kmc_weights, np_power, broadcast2, expand_last, np_diff, nrows, ncols.
  rewrite Hs, Hp. cbn [shape data nth app length Nat.max].
  unfold pad_shape. cbn [length Nat.sub repeat app].
  rewrite bshape_vector. cbn [bind]. unfold np_prod_axis1. cbn [shape].
  eexists. split; reflexivity.
Qed.

Lemma edges_nonempty (sample : ndarray R) (bins : list nat) :
  1 <= length bins -> hist_edges sample bins <> [].
Proof.
  intros Hb E. apply (f_equal (@length _)) in E.
  rewrite length_hist_edges in E. simpl in E. lia.
Qed.

(** X5.  The number of channels is read from [powers.shape[1]] only at line
    59.  A 1-D array of powers passes the weights, the histogram and the
    kernel, and the estimator then fails with IndexError. *)
Theorem kmc_vector_powers_late_error (timeseries : ndarray R) (bins : list nat)
    (kernel : kernel_fn) (bw : R) (powers : ndarray Z) (N D K : nat) :
  shape timeseries = [N; D] -> 1 <= D -> length bins = D ->
  shape powers = [K] ->
  (forall mesh, length (data (kernel mesh bw)) = nrows mesh) ->
  raises (kmc_hist timeseries bins powers) = false
  /\ (forall he, kmc_hist timeseries bins powers = Ok he ->
        raises (kmc_kernel (snd he) kernel bw) = false)
  /\ kmc_kernel_estimator timeseries bins kernel bw powers = Raise IndexError.
Proof.
  intros Hs HD Hb Hp Hker.
  destruct (kmc_weights_vector _ _ Hs Hp) as (w & Hw & Hsw).
  assert (Hhist : kmc_hist timeseries bins powers
                  = Ok (mk_nd (bins ++ [K])
                          (build (size bins * K)
                             (fun p => cell_density (tail_rows timeseries)
                                         (hist_edges (tail_rows timeseries) bins) bins
                                         (fun i => get2 w i (p mod K)) (p / K))),
                        hist_edges (tail_rows timeseries) bins)).
  { unfold kmc_hist. rewrite Hw. cbn [bind].
    apply histogramdd_run with (n := N - 1) (D := D); auto using shape_tail_rows. }
  assert (Hkern : kmc_kernel (hist_edges (tail_rows timeseries) bins) kernel bw
                  = Ok (kernel_field (hist_edges (tail_rows timeseries) bins) kernel bw)).
  { apply kmc_kernel_run; [apply edges_nonempty; lia|].
    now rewrite Hker, nrows_mesh_of. }
  split; [now rewrite Hhist|].
  split.
  - intros he E. rewrite Hhist in E. injection E as <-. cbn [snd]. now rewrite Hkern.
  - unfold kmc_kernel_estimator. rewrite Hhist. cbn [bind fst snd]. rewrite Hkern.
    cbn [bind]. unfold kmc_convolve, shape1. rewrite Hp. reflexivity.
Qed.

(** X6.  The only check on the kernel is the reshape of line 54.  A kernel
    whose output does not have one entry per point of the edge mesh, the
    product of the bins[d] + 1, makes the estimator raise ValueError. *)
Theorem kmc_kernel_size_error (timeseries : ndarray R) (bins : list nat)
    (kernel : kernel_fn) (bw : R) (powers : ndarray Z) (N D K : nat) :
  shape timeseries = [N; D] -> 1 <= D -> length bins = D ->
  shape powers = [D; K] ->
  length (data (kernel (mesh_of (hist_edges (tail_rows timeseries) bins)) bw))
  <> size (map S bins) ->
  kmc_kernel_estimator timeseries bins kernel bw powers = Raise ValueError.
Proof.
  intros Hs HD Hb Hp Hlen.
  unfold kmc_kernel_estimator.
  rewrite (@kmc_hist_run _ _ timeseries bins powers N D K Hs Hp Hb).
  cbv zeta. cbn [bind fst snd].
  unfold kmc_kernel, kmc_mesh.
  rewrite cartesian_product_run by (apply edges_nonempty; lia).
  cbn [bind]. unfold reshape. rewrite map_length_hist_edges.
  destruct (Nat.eqb_spec
              (length (data (kernel (mesh_of (hist_edges (tail_rows timeseries) bins)) bw)))
              (size (map S bins))); [contradiction|reflexivity].
Qed.

(** X7.  The kernel is called once, on the mesh of the edges and with the
    bandwidth as given, and only the entries it returns are used, in
    row-major order: two kernels whose outputs at that mesh hold the same
    entries, whatever the shapes they come in, give the same outcome. *)
Theorem kmc_kernel_used_at_edge_mesh (timeseries : ndarray R) (bins : list nat)
    (kernel1 kernel2 : kernel_fn) (bw : R) (powers : ndarray Z) (N D K : nat) :
  shape timeseries = [N; D] -> 1 <= D -> length bins = D ->
  shape powers = [D; K] ->
  data (kernel1 (mesh_of (hist_edges (tail_rows timeseries) bins)) bw)
  = data (kernel2 (mesh_of (hist_edges (tail_rows timeseries) bins)) bw) ->
  kmc_kernel_estimator timeseries bins kernel1 bw powers
  = kmc_kernel_estimator timeseries bins kernel2 bw powers.
Proof.
  intros Hs HD Hb Hp Hk.
  unfold kmc_kernel_estimator.
  rewrite (@kmc_hist_run _ _ timeseries bins powers N D K Hs Hp Hb).
  cbv zeta. cbn [bind fst snd].
  unfold kmc_kernel, kmc_mesh.
  rewrite cartesian_product_run by (apply edges_nonempty; lia).
  cbn [bind]. unfold reshape. now rewrite Hk.
Qed.

End LateChecks.

Lemma kmc_vector_powers_late_error_witness :
  raises (kmc_hist Inputs.ts1 [2] (mk_nd [2] [1; 2]%Z)) = false
  /\ kmc_kernel_estimator Inputs.ts1 [2] Inputs.ones_kernel 1%float (mk_nd [2] [1; 2]%Z)
     = Raise IndexError.
Proof.
  destruct (@kmc_vector_powers_late_error float F64.float_scalar Inputs.ts1 [2]
              Inputs.ones_kernel 1%float (mk_nd [2] [1; 2]%Z) 4 1 2)
    as (H1 & _ & H3); try reflexivity.
  - intro mesh. unfold Inputs.ones_kernel, Inputs.const_kernel. cbn [data].
    apply repeat_length.
  - split; assumption.
Defined.

Lemma kmc_kernel_size_error_witness :
  kmc_kernel_estimator Inputs.ts1 [2] (fun _ _ => mk_nd [2] [1; 1]%float) 1%float Inputs.pw11
  = Raise ValueError.
Proof.
  apply (@kmc_kernel_size_error float F64.float_scalar Inputs.ts1 [2]
           (fun _ _ => mk_nd [2] [1; 1]%float) 1%float Inputs.pw11 4 1 1);
    try reflexivity.
  vm_compute. lia.
Defined.

Lemma kmc_kernel_used_at_edge_mesh_witness :
  kmc_kernel_estimator Inputs.ts1 [2] Inputs.ones_kernel 1%float Inputs.pw11
  = kmc_kernel_estimator Inputs.ts1 [2]
      (fun mesh _ => mk_nd [nrows mesh; 1] (repeat 1%float (nrows mesh))) 1%float Inputs.pw11.
Proof.
  apply (@kmc_kernel_used_at_edge_mesh float F64.float_scalar Inputs.ts1 [2]
           Inputs.ones_kernel
           (fun mesh _ => mk_nd [nrows mesh; 1] (repeat 1%float (nrows mesh)))
           1%float Inputs.pw11 4 1 1); reflexivity.
Defined.

(** ** The kernel field follows the order of the edges (lines 53-54) *)

Section KernelFieldOrder.

Context {R : Type} `{Scalar R}.

(** X9.  The mesh and the reshape of the kernel's output use the same
    row-major order.  For a kernel that evaluates a function [f] at every
    mesh point, the kernel field at the multi-index j is [f] at the point
    (edges[0][j0], ..., edges[D-1][jD-1]), divided by the sum of the field:
    axis d of the kernel field runs along the edges of dimension d. *)
Theorem kernel_field_follows_edges (edges : list (list R)) (kernel : kernel_fn) (bw : R)
    (f : list R -> R) (j : list nat) :
  edges <> [] ->
  (forall mesh, data (kernel mesh bw) = map f (rows mesh)) ->
  in_shape j (map (@length R) edges) ->
  exists kernel_,
    kmc_kernel edges kernel bw = Ok kernel_
    /\ shape kernel_ = map (@length R) edges
    /\ at_index kernel_ j
       = div (f (map (fun ej => get (fst ej) (snd ej)) (combine edges j)))
             (sum (data (kernel (mesh_of edges) bw))).
Proof.
  intros Hne Hf Hj.
  assert (Hlen : length (data (kernel (mesh_of edges) bw)) = size (map (@length R) edges)).
  { rewrite Hf, length_map. unfold rows. now rewrite length_build. }
  exists (kernel_field edges kernel bw).
  split; [now apply kmc_kernel_run|].
  split; [reflexivity|].
  pose proof (ravel_lt Hj) as Hr.
  unfold at_index, kernel_field, idiv, get. cbn [shape data].
  rewrite nth_map_in with (d' := zero) by now rewrite Hlen.
  f_equal. rewrite Hf.
  rewrite nth_map_in with (d' := []).
  2:{ unfold rows. now rewrite length_build. }
  rewrite rows_mesh_of by assumption.
  rewrite nth_cart with (d := zero) by assumption.
  now rewrite unravel_ravel.
Qed.

End KernelFieldOrder.

Lemma kernel_field_follows_edges_witness :
  exists kernel_,
    kmc_kernel [[1; 2]; [10; 20; 30]]%float
      (fun mesh _ => mk_nd [nrows mesh] (map (fun x => get x 0 + get x 1)%float (rows mesh)))
      1%float = Ok kernel_
    /\ shape kernel_ = [2; 3]
    /\ at_index kernel_ [1; 2] = (32 / 129)%float.
Proof.
  destruct (@kernel_field_follows_edges float F64.float_scalar
              [[1; 2]; [10; 20; 30]]%float
              (fun mesh _ => mk_nd [nrows mesh]
                               (map (fun x => get x 0 + get x 1)%float (rows mesh)))
              1%float (fun x => get x 0 + get x 1)%float [1; 2])
    as (kf & H1 & H2 & H3).
  - discriminate.
  - reflexivity.
  - repeat constructor.
  - exists kf. split; [exact H1|]. split; [exact H2|]. rewrite H3. reflexivity.
Defined.

(** ** The array returned by the kernel is overwritten (lines 54-55) *)

Section KernelCallFacts.

Context {R : Type} `{Scalar R}.

Lemma load_f_inv (l : loc) (a : ndarray R) (h h' : heap) :
  load_f l h = Ok (a, h') -> h' = h /\ nth_error h l = Some (ArrF a).
Proof.
  unfold load_f. destruct (nth_error h l) as [[]|]; try discriminate.
  intro E. injection E as <- <-. auto.
Qed.

Lemma kernel_view_inv (kout edges : loc) (k view : ndarray R) (h h' : heap) :
  nth_error h kout = Some (ArrF k) ->
  kernel_view kout edges h = Ok (view, h') ->
  h' = h /\ exists s, reshape k s = Ok view.
Proof.
  intros Hk E. unfold kernel_view in E.
  apply hbind_Ok_inv in E as (k' & h1 & E1 & E).
  apply load_f_inv in E1 as (-> & Hk'). rewrite Hk in Hk'. injection Hk' as <-.
  apply hbind_Ok_inv in E as (e & h2 & E2 & E).
  unfold load_l in E2. destruct (nth_error h edges) as [[]|]; try discriminate.
  injection E2 as <- <-.
  unfold lift in E. destruct (reshape k _) eqn:Er; [|discriminate].
  injection E as <- <-. eauto.
Qed.

(** Line 55 on an array [k] at [kout]: the array keeps its shape and every
    entry is divided by the sum of the entries. *)
Lemma kmc_heap_normalize_spec (kout edges : loc) (k : ndarray R) (h h' : heap) (u : unit) :
  nth_error h kout = Some (ArrF k) ->
  kmc_heap_normalize kout edges h = Ok (u, h') ->
  nth_error h' kout
  = Some (ArrF (mk_nd (shape k) (map (fun x => div x (sum (data k))) (data k)))).
Proof.
  intros Hk E. unfold kmc_heap_normalize in E.
  apply hbind_Ok_inv in E as (view & h1 & Ev & E).
  apply kernel_view_inv with (k := k) in Ev as (-> & s & Hs); [|assumption].
  apply hbind_Ok_inv in E as (k' & h2 & El & E).
  apply load_f_inv in El as (-> & Hk'). rewrite Hk in Hk'. injection Hk' as <-.
  unfold reshape in Hs. destruct (length (data k) =? size s); [|discriminate].
  injection Hs as <-. cbn [idiv data] in E.
  unfold store in E.
  destruct (Nat.ltb_spec kout (length h)) as [Hlt|]; [|discriminate].
  injection E as _ <-.
  rewrite nth_error_app2 by (rewrite length_firstn; lia).
  rewrite length_firstn. replace (kout - Nat.min kout (length h)) with 0 by lia.
  reflexivity.
Qed.

End KernelCallFacts.

Section KernelCallClaims.

Context {R : Type} `{Scalar R}.

(** X8.  The division of line 55 is done in place, through a view of the
    array the kernel returned.  When the kernel returns an array that exists
    already (one it keeps between calls, or one of the estimator's own
    arguments) and the estimator returns, that array has been overwritten:
    it keeps its shape and holds its former entries divided by their sum. *)
Theorem kmc_kernel_array_overwritten (h h' : heap) (timeseries bins powers c : loc)
    (bw : R) (k : ndarray R) (result : loc * loc) :
  nth_error h c = Some (ArrF k) ->
  kmc_kernel_estimator_heap timeseries bins (cached c) bw powers h = Ok (result, h') ->
  nth_error h' c
  = Some (ArrF (mk_nd (shape k) (map (fun x => div x (sum (data k))) (data k)))).
Proof.
  intros Hk Hrun. unfold kmc_kernel_estimator_heap in Hrun.
  apply hbind_Ok_inv in Hrun as (front & h1 & Hfront & Hrun).
  apply (keeps_kmc_heap_front (c := c) (o := ArrF k)) in Hfront; [|exact Hk].
  cbv zeta in Hrun.
  apply hbind_Ok_inv in Hrun as (kout & h2 & Hcall & Hrun).
  unfold cached, ret in Hcall. injection Hcall as <- <-.
  apply hbind_Ok_inv in Hrun as (u & h3 & Hnorm & Hrun).
  apply kmc_heap_normalize_spec with (k := k) in Hnorm; [|exact Hfront].
  eapply keeps_kmc_heap_back; [exact Hnorm|exact Hrun].
Qed.

End KernelCallClaims.

Lemma kmc_kernel_array_overwritten_witness :
  exists result h',
    kmc_kernel_estimator_heap 0 1 (cached 3) 1%float 2 Inputs.heap_cached
    = Ok (result, h')
    /\ nth_error h' 3 = Some (ArrF (mk_nd [3] [0.25; 0.25; 0.5]%float)).
Proof.
  let v := eval vm_compute in
             (kmc_kernel_estimator_heap 0 1 (cached 3) 1%float 2 Inputs.heap_cached) in
  match v with
  | Ok (?r, ?h') =>
      exists r, h';
      assert (Hrun : kmc_kernel_estimator_heap 0 1 (cached 3) 1%float 2
                       Inputs.heap_cached = Ok (r, h')) by (vm_compute; reflexivity)
  end.
  split; [exact Hrun|].
  rewrite (@kmc_kernel_array_overwritten float F64.float_scalar Inputs.heap_cached _ 0 1 2 3
             1%float (mk_nd [3] [1; 1; 2]%float) _ eq_refl Hrun).
  reflexivity.
Defined.
